(** * Piano roll: a shallow embedding of
      [src/components/enhanced-interactive-piano-roll-with-pythagorean-chords.tsx]

    The component keeps an array of note records, a few gesture flags and the
    grid's column count in React state.  Every handler is embedded as a pure
    function from the state it runs against to the state it commits; readings
    of the environment ([Date.now()], [Math.random()], the decoded MIDI file,
    [Tone.Frequency(f).toNote()]) are arguments of the handler that takes them.

    Numbers: grid indices are integers ([Math.floor]/[Math.ceil] results), kept
    in [Z].  Pixel coordinates, random readings and MIDI times are finite
    JavaScript numbers, kept in [Q]; the only arithmetic applied to them before
    rounding is a product or quotient by a small integer constant.  The chord
    generator's frequencies are kept as binary64 floats, as in JavaScript.

    The module-level array [allNotes] is part of the state: the keyboard strip
    reverses it in place each time it renders. *)

From Stdlib Require Import ZArith QArith Qround Qminmax Bool List String Ascii Lia Lqa.
From Stdlib Require Import DecimalString Floats.
From Equations Require Import Equations.
Import ListNotations.

Set Warnings "-inexact-float".

Local Open Scope Z_scope.

(** ** Constants (lines 13-25) *)

Definition NOTES : list string :=
  ["C"; "C#"; "D"; "D#"; "E"; "F"; "F#"; "G"; "G#"; "A"; "A#"; "B"]%string.
Definition OCTAVES : nat := 7.
Definition MEASURES : Z := 4.
Definition BEATS_PER_MEASURE : Z := 4.
Definition CELL_SIZE : Z := 25.

(** Decimal text of a number, as a template literal prints it. *)
Definition showNat (n : nat) : string := NilZero.string_of_uint (Nat.to_uint n).
Definition showZ (z : Z) : string := NilZero.string_of_int (Z.to_int z).

(** [Array.from({ length: OCTAVES }, (_, octave) =>
       NOTES.map(note => `${note}${octave + 2}`)).flat()]:
    the value [allNotes] has when the module is loaded. *)
Definition allNotes_initial : list string :=
  List.concat (map (fun octave => map (fun n => (n ++ showNat (octave + 2))%string) NOTES)
              (seq 0 OCTAVES)).

(** ** Data model (lines 27-35) *)

(** [note] is [None] where JavaScript stores [undefined], the value of
    [allNotes[i]] for an index outside the array. *)
Record Note := mkNote {
  id : string;
  note : option string;
  start : Z;
  duration : Z;
  rowIndex : Z;
  colIndex : Z;
  selected : bool
}.

Definition with_selected (b : bool) (n : Note) : Note :=
  mkNote (id n) (note n) (start n) (duration n) (rowIndex n) (colIndex n) b.
Definition with_duration (d : Z) (n : Note) : Note :=
  mkNote (id n) (note n) (start n) d (rowIndex n) (colIndex n) (selected n).
Definition with_position (col row : Z) (name : option string) (n : Note) : Note :=
  mkNote (id n) name (start n) (duration n) row col (selected n).

(** What the handlers ask of the audio engine, the console and the toaster.
    Canvas drawing is left out: it reads the state and writes pixels only. *)
Inductive Effect :=
| ToneStart
| SynthTrigger (name : option string)                 (* triggerAttackRelease(note, '8n') *)
| SynthSchedule (name : option string) (len offset : Q)
| SynthReleaseAll
| TransportCancel
| TransportStop
| TransportStart
| TransportScheduleEnd (at_ : option Q)               (* [None]: Math.max() of no argument *)
| ConsoleError (msg err : string)
| Toast (title description : string) (destructive : bool).

(** React state of the component (lines 160-168), the module-level array
    [allNotes], and the trace of effects issued so far. *)
Record State := mkState {
  synth : bool;                       (* [synth !== null] *)
  activeNotes : list (option string);
  notes : list Note;
  isPlaying : bool;
  isDragging : bool;
  isResizing : bool;
  selectedNote : option Note;
  numberOfColumns : Z;
  showStaffView : bool;
  allNotes : list string;
  trace : list Effect
}.

Definition setSynth (v : bool) (s : State) : State :=
  mkState v (activeNotes s) (notes s) (isPlaying s) (isDragging s) (isResizing s)
          (selectedNote s) (numberOfColumns s) (showStaffView s) (allNotes s) (trace s).
Definition setActiveNotes (f : list (option string) -> list (option string)) (s : State) : State :=
  mkState (synth s) (f (activeNotes s)) (notes s) (isPlaying s) (isDragging s) (isResizing s)
          (selectedNote s) (numberOfColumns s) (showStaffView s) (allNotes s) (trace s).
Definition setNotes (f : list Note -> list Note) (s : State) : State :=
  mkState (synth s) (activeNotes s) (f (notes s)) (isPlaying s) (isDragging s) (isResizing s)
          (selectedNote s) (numberOfColumns s) (showStaffView s) (allNotes s) (trace s).
Definition setIsPlaying (v : bool) (s : State) : State :=
  mkState (synth s) (activeNotes s) (notes s) v (isDragging s) (isResizing s)
          (selectedNote s) (numberOfColumns s) (showStaffView s) (allNotes s) (trace s).
Definition setIsDragging (v : bool) (s : State) : State :=
  mkState (synth s) (activeNotes s) (notes s) (isPlaying s) v (isResizing s)
          (selectedNote s) (numberOfColumns s) (showStaffView s) (allNotes s) (trace s).
Definition setIsResizing (v : bool) (s : State) : State :=
  mkState (synth s) (activeNotes s) (notes s) (isPlaying s) (isDragging s) v
          (selectedNote s) (numberOfColumns s) (showStaffView s) (allNotes s) (trace s).
Definition setSelectedNote (v : option Note) (s : State) : State :=
  mkState (synth s) (activeNotes s) (notes s) (isPlaying s) (isDragging s) (isResizing s)
          v (numberOfColumns s) (showStaffView s) (allNotes s) (trace s).
Definition setNumberOfColumns (f : Z -> Z) (s : State) : State :=
  mkState (synth s) (activeNotes s) (notes s) (isPlaying s) (isDragging s) (isResizing s)
          (selectedNote s) (f (numberOfColumns s)) (showStaffView s) (allNotes s) (trace s).
Definition setShowStaffView (v : bool) (s : State) : State :=
  mkState (synth s) (activeNotes s) (notes s) (isPlaying s) (isDragging s) (isResizing s)
          (selectedNote s) (numberOfColumns s) v (allNotes s) (trace s).
Definition setAllNotes (f : list string -> list string) (s : State) : State :=
  mkState (synth s) (activeNotes s) (notes s) (isPlaying s) (isDragging s) (isResizing s)
          (selectedNote s) (numberOfColumns s) (showStaffView s) (f (allNotes s)) (trace s).
Definition emit (es : list Effect) (s : State) : State :=
  mkState (synth s) (activeNotes s) (notes s) (isPlaying s) (isDragging s) (isResizing s)
          (selectedNote s) (numberOfColumns s) (showStaffView s) (allNotes s) (trace s ++ es).

(** State of the first render: [useState] initial values, [allNotes] as loaded. *)
Definition initialState : State :=
  mkState false [] [] false false false None (MEASURES * BEATS_PER_MEASURE * 4) false
          allNotes_initial [].

(** ** Array helpers *)

(** [arr[i]] for an integer [i]: [undefined] outside [0 .. length-1]. *)
Definition at_index {A} (arr : list A) (i : Z) : option A :=
  if i <? 0 then None else nth_error arr (Z.to_nat i).

(** [arr.indexOf(x)]: index of the first occurrence, [-1] when there is none. *)
Fixpoint indexOf (arr : list string) (x : string) : Z :=
  match arr with
  | [] => -1
  | y :: rest =>
      if String.eqb y x then 0
      else let r := indexOf rest x in if r <? 0 then -1 else r + 1
  end.

(** [Math.floor(p / CELL_SIZE)] *)
Definition cellIndex (p : Q) : Z := Qfloor (p / inject_Z CELL_SIZE).

(** The predicate both [notes.find] calls use (lines 231-235, 274-278). *)
Definition covers (rowIdx colIdx : Z) (n : Note) : bool :=
  (rowIndex n =? rowIdx) && (colIndex n <=? colIdx) && (colIdx <? colIndex n + duration n).

(** ** The keyboard strip (lines 37-61)

    [Piano]'s body evaluates [allNotes.reverse().map(...)].  [Array.prototype.reverse]
    reverses the array in place and returns it, and [allNotes] is the one
    module-level array every handler below indexes: each render of the strip
    leaves it in the opposite order.  The strip is a child of the component
    with no memoisation, so it renders whenever the component does. *)
Definition renderPiano (s : State) : State := setAllNotes (@rev string) s.

(** ** Handlers of the component (lines 203-477) *)

Definition playNote (name : option string) (s : State) : State :=
  if synth s
  then setActiveNotes (fun prev => prev ++ [name]) (emit [SynthTrigger name] s)
  else s.

(** [n !== note] on values that are a string or [undefined]. *)
Definition same_name (a b : option string) : bool :=
  match a, b with
  | Some x, Some y => String.eqb x y
  | None, None => true
  | _, _ => false
  end.

Definition stopNote (name : option string) (s : State) : State :=
  setActiveNotes (filter (fun n => negb (same_name n name))) s.

(** Lines 222-263.  [now] is the reading of [Date.now()].  The canvas ref is
    set from the first commit on, so the guard on it never returns.  The
    canvas is 84 cells high, so for a pointer on it [allNotes[rowIndex]] is
    defined. *)
Definition handleCanvasClick (now : Z) (x y : Q) (s : State) : State :=
  let colIdx := cellIndex x in
  let rowIdx := cellIndex y in
  match find (covers rowIdx colIdx) (notes s) with
  | Some clickedNote =>
      setNotes (map (fun n => with_selected (String.eqb (id n) (id clickedNote)) n))
               (setSelectedNote (Some clickedNote) s)
  | None =>
      if negb (isDragging s) && negb (isResizing s) then
        let newNote :=
          mkNote ("note-" ++ showZ now) (at_index (allNotes s) rowIdx)
                 colIdx 1 rowIdx colIdx true in
        let s1 := setNotes (fun prevNotes => map (with_selected false) prevNotes ++ [newNote]) s in
        let s2 := setSelectedNote (Some newNote) s1 in
        let s3 := playNote (note newNote) s2 in
        if colIdx >=? numberOfColumns s - 1
        then setNumberOfColumns (fun prevCols => prevCols + 50) s3
        else s3
      else s
  end.

(** Lines 265-289. *)
Definition isResizeHandle (x : Q) (clickedNote : Note) : bool :=
  negb (Qle_bool (x - inject_Z (colIndex clickedNote * CELL_SIZE))
                 (inject_Z (duration clickedNote * CELL_SIZE - 5))).

Definition handleMouseDown (x y : Q) (s : State) : State :=
  let colIdx := cellIndex x in
  let rowIdx := cellIndex y in
  match find (covers rowIdx colIdx) (notes s) with
  | Some clickedNote =>
      let s1 := setSelectedNote (Some clickedNote) s in
      if isResizeHandle x clickedNote then setIsResizing true s1 else setIsDragging true s1
  | None => s
  end.

(** Lines 291-317. *)
Definition handleMouseMove (x y : Q) (s : State) : State :=
  if isDragging s || isResizing s then
    match selectedNote s with
    | Some sel =>
        let newColIndex := cellIndex x in
        let newRowIndex := cellIndex y in
        if isDragging s then
          setNotes (map (fun n =>
                      if String.eqb (id n) (id sel)
                      then with_position newColIndex newRowIndex
                                         (at_index (allNotes s) newRowIndex) n
                      else n)) s
        else if isResizing s then
          let newDuration := Z.max 1 (newColIndex - colIndex sel + 1) in
          setNotes (map (fun n =>
                      if String.eqb (id n) (id sel) then with_duration newDuration n else n)) s
        else s
    | None => s
    end
  else s.

(** Lines 319-322; also the canvas's [onMouseLeave]. *)
Definition handleMouseUp (s : State) : State :=
  setIsResizing false (setIsDragging false s).

(** [Math.max(...xs)]; [None] stands for the [-Infinity] of an empty list. *)
Definition maxOf (xs : list Z) : option Z :=
  match xs with
  | [] => None
  | x :: rest => Some (fold_left Z.max rest x)
  end.

(** Lines 324-343; offsets are relative to [Tone.now()]. *)
Definition playRecorded (s : State) : State :=
  if synth s && negb (isPlaying s) then
    let quarter := 1 # 4 in
    let maxDuration :=
      option_map (fun m => inject_Z m * quarter)%Q
                 (maxOf (map (fun n => start n + duration n) (notes s))) in
    emit ([TransportCancel; TransportStop]
            ++ map (fun n => SynthSchedule (note n) (inject_Z (duration n) * quarter)
                                           (inject_Z (start n) * quarter)) (notes s)
            ++ [TransportScheduleEnd maxDuration; TransportStart])
         (setIsPlaying true s)
  else s.

(** The callback scheduled at line 337. *)
Definition playbackEnded (s : State) : State := setIsPlaying false s.

(** Lines 345-352. *)
Definition stopPlayback (s : State) : State :=
  let s1 := setIsPlaying false (emit [TransportStop; TransportCancel] s) in
  if synth s then emit [SynthReleaseAll] s1 else s1.

(** Lines 354-357. *)
Definition clearAllNotes (s : State) : State := setNotes (fun _ => []) s.

(** Lines 359-376.  [r1], [r2], [r3] are the three readings of [Math.random()]. *)
Definition addRandomNote (now : Z) (r1 r2 r3 : Q) (s : State) : State :=
  let rowIdx := Qfloor (r1 * inject_Z (Z.of_nat (List.length (allNotes s)))) in
  let colIdx := Qfloor (r2 * inject_Z (numberOfColumns s)) in
  let dur := Qfloor (r3 * 4) + 1 in
  let newNote :=
    mkNote ("note-" ++ showZ now) (at_index (allNotes s) rowIdx) colIdx dur rowIdx colIdx false in
  setNotes (fun prevNotes => prevNotes ++ [newNote]) s.

(** ** MIDI import (lines 378-429) *)

(** What the decoder hands back: [midi.tracks[i].notes[j]] with its [name],
    [time] and [duration].  Each decoded note comes with the readings of
    [Date.now()] and of [Math.random()] (as printed) taken if it is pushed. *)
Module Midi.
Record Note := mkNote { name : string; time : Q; duration : Q }.
Definition Stamp : Type := Z * string.
Definition Track : Type := list (Note * Stamp).
Definition File : Type := list Track.
End Midi.

(** Body of the inner [forEach] (lines 390-410) on the accumulators
    [newNotes] and [maxColumn]. *)
Definition importNote (table : list string) (acc : list Note * Z)
           (entry : Midi.Note * Midi.Stamp) : list Note * Z :=
  let '(newNotes, maxColumn) := acc in
  let '(midiNote, (now, rnd)) := entry in
  let noteName := Midi.name midiNote in
  let start_ := Qfloor (Midi.time midiNote * 4) in
  let dur := Qceiling (Midi.duration midiNote * 4) in
  let rowIdx := indexOf table noteName in
  let colIdx := start_ in
  if negb (rowIdx =? -1) then
    (newNotes ++ [mkNote ("note-" ++ showZ now ++ "-" ++ rnd) (Some noteName)
                         start_ dur rowIdx colIdx false],
     Z.max maxColumn (colIdx + dur))
  else acc.

Definition importTracks (table : list string) (tracks : Midi.File) : list Note * Z :=
  fold_left (fun acc track => fold_left (importNote table) track acc) tracks ([], 0).

(** The handler is [async].  It runs up to [await file.arrayBuffer()] in
    the render it was attached in, and the rest of its body runs later, when
    the bytes are there, on whatever the state is then: the setters write to
    the current state, while [numberOfColumns] in line 414 is still the
    constant of the closure, the value at the call.

    [resumeMidiUpload capturedColumns file s] is that rest, resumed on [s].
    [file] is [None] when the input held no file (the handler returned before
    the [await]); otherwise it carries what [new Midi(await file.arrayBuffer())]
    does: it throws ([inl], with the error's text) or returns the decoded
    tracks ([inr]). *)
Definition resumeMidiUpload (capturedColumns : Z) (file : option (string + Midi.File))
           (s : State) : State :=
  match file with
  | None => s
  | Some (inr tracks) =>
      let '(newNotes, maxColumn) := importTracks (allNotes s) tracks in
      let s1 := setNotes (fun _ => newNotes) s in
      let s2 := setNumberOfColumns (fun _ => Z.max capturedColumns (maxColumn + 1)) s1 in
      emit [Toast "MIDI file uploaded successfully"
                  ("Loaded " ++ showNat (List.length newNotes) ++ " notes from the MIDI file.")
                  false] s2
  | Some (inl error) =>
      emit [ConsoleError "Error parsing MIDI file:" error;
            Toast "Error uploading MIDI file"
                  "There was a problem processing the MIDI file. Please try again with a different file."
                  true] s
  end.

(** The import with nothing handled between the call and the resumption. *)
Definition handleMidiUpload (file : option (string + Midi.File)) (s : State) : State :=
  resumeMidiUpload (numberOfColumns s) file s.

(** ** Pythagorean chords (lines 431-477) *)

Definition baseFrequency : float := 261.63%float.

Definition pythagoreanRatios : list (string * float) :=
  [ ("Perfect Fourth"%string, 4 / 3); ("Perfect Fifth"%string, 3 / 2);
    ("Major Third"%string, 81 / 64); ("Minor Third"%string, 32 / 27) ]%float.

(** [frequency] of line 445. *)
Definition intervalFrequency (ratio : float) : float := (baseFrequency * ratio)%float.

(** Elements of an array with their indices, as [forEach((x, index) => ...)] sees them. *)
Definition indexed {A} (xs : list A) : list (nat * A) := combine (seq 0 (List.length xs)) xs.

(** [now k] is the reading of the [k]-th call of [Date.now()] (the four
    intervals, then the base note); [toNote f] is what
    [Tone.Frequency(f).toNote()] answers. *)
Definition addPythagoreanChords (now : nat -> Z) (toNote : float -> string) (s : State) : State :=
  let baseNote := "C4"%string in
  let intervalChords :=
    map (fun '(index, (_, ratio)) =>
           let frequency := intervalFrequency ratio in
           let name := toNote frequency in
           mkNote ("pythagorean-" ++ showZ (now index) ++ "-" ++ showNat index)
                  (Some name) (Z.of_nat index * 4) 4
                  (indexOf (allNotes s) name) (Z.of_nat index * 4) false)
        (indexed pythagoreanRatios) in
  let newChords :=
    intervalChords
      ++ [mkNote ("pythagorean-" ++ showZ (now 4%nat) ++ "-base")
                 (Some baseNote) 0 16 (indexOf (allNotes s) baseNote) 0 false] in
  emit [Toast "Pythagorean chords added"
              "Added Perfect Fourth, Perfect Fifth, Major Third, and Minor Third chords."
              false]
       (setNotes (fun prevNotes => prevNotes ++ newChords) s).

(** ** Staff view (lines 94-157) *)

(** The arguments of [new StaveNote({...})], and whether a [TieNote] modifier
    was added to it. *)
Record StaveNote := mkStaveNote {
  clef : string;
  keys : list string;
  vfDuration : string;
  tied : bool
}.

(** One turn of the loop of [splitNote]: the [currentDuration] it took off
    [remainingDuration] and the note it pushed. *)
Record Piece := mkPiece {
  currentDuration : Q;
  pushed : StaveNote
}.

(** Lines 113-118. *)
Definition getDuration (d : Q) : string :=
  if Qle_bool 4 d then "w"
  else if Qle_bool 2 d then "h"
  else if Qle_bool 1 d then "q"
  else "8".

(** The [while] loop of lines 125-140, with [result] as accumulator. *)
Equations splitLoop (baseNote : string) (remainingDuration : Q) (result : list Piece)
  : list Piece by wf (Z.to_nat (Qceiling remainingDuration)) lt :=
  splitLoop baseNote remainingDuration result with Qlt_le_dec 0 remainingDuration := {
    | left Hpos =>
        let currentDuration := Qmin remainingDuration 4 in
        let vfDuration := getDuration currentDuration in
        let newNote :=
          mkStaveNote "treble" [baseNote] vfDuration (0 <? List.length result)%nat in
        splitLoop baseNote (remainingDuration - currentDuration)
                  (result ++ [mkPiece currentDuration newNote])
    | right _ => result
  }.
Next Obligation.
  (* the loop terminates: each turn lowers the ceiling of what remains *)
  assert (Hstep : forall a b : Q, (a + 1 <= b)%Q -> Qceiling a < Qceiling b).
  { intros a b H. rewrite Zlt_Qlt.
    pose proof (Qceiling_lt a) as Ha. pose proof (Qle_ceiling b) as Hb.
    unfold Z.sub in Ha. rewrite inject_Z_plus in Ha.
    generalize dependent (inject_Z (Qceiling a)).
    generalize dependent (inject_Z (Qceiling b)).
    intros ceil_b Hb ceil_a Ha. unfold inject_Z in Ha; cbn in Ha. lra. }
  assert (Hc : 0 < Qceiling remainingDuration).
  { rewrite Zlt_Qlt. eapply Qlt_le_trans; [exact Hpos | apply Qle_ceiling]. }
  destruct (Qlt_le_dec 4 remainingDuration) as [Hbig | Hsmall].
  - assert (Hmin : (Qmin remainingDuration 4 == 4)%Q)
      by (apply Q.min_r, Qlt_le_weak, Hbig).
    assert (Hlt : Qceiling (remainingDuration - Qmin remainingDuration 4)
                  < Qceiling remainingDuration)
      by (apply Hstep; rewrite Hmin; lra).
    lia.
  - assert (Hmin : (Qmin remainingDuration 4 == remainingDuration)%Q)
      by (apply Q.min_l, Hsmall).
    assert (Hz : (remainingDuration - Qmin remainingDuration 4 == 0)%Q)
      by (rewrite Hmin; ring).
    rewrite Hz. change (Qceiling 0) with 0. lia.
Qed.

(** Lines 121-143. *)
Definition splitNote (baseNote : string) (d : Q) : list StaveNote :=
  map pushed (splitLoop baseNote d []).

(** [note.note.split(/(\d+)/)], first two elements: the text before the
    first run of digits, and that run ([undefined] when there is none). *)
Definition isDigit (c : ascii) : bool :=
  let n := nat_of_ascii c in ((48 <=? n) && (n <=? 57))%nat.

Fixpoint splitAtDigits (s : string) : string * string :=
  match s with
  | EmptyString => (EmptyString, EmptyString)
  | String c rest =>
      if isDigit c then (EmptyString, s)
      else let '(noteName, tail) := splitAtDigits rest in (String c noteName, tail)
  end.

Fixpoint leadingDigits (s : string) : string :=
  match s with
  | EmptyString => EmptyString
  | String c rest => if isDigit c then String c (leadingDigits rest) else EmptyString
  end.

Fixpoint toLowerCase (s : string) : string :=
  match s with
  | EmptyString => EmptyString
  | String c rest =>
      let n := nat_of_ascii c in
      String (if ((65 <=? n) && (n <=? 90))%nat then ascii_of_nat (n + 32) else c)
             (toLowerCase rest)
  end.

(** Lines 109-110. *)
Definition baseNoteOf (name : string) : string :=
  let '(noteName, tail) := splitAtDigits name in
  let octave := match tail with
                | EmptyString => "undefined"%string
                | _ => leadingDigits tail
                end in
  (toLowerCase noteName ++ "/" ++ octave)%string.


(** ** Canvas drawing (lines 63-92, 182-189)

    A drawing function is embedded as the list of calls it makes on the 2D
    context, in order. *)
Inductive CanvasOp :=
| ClearRect (x y w h : Z)
| BeginPath
| PathRect (x y w h : Z)
| StrokeStyle (colour : string)
| Stroke
| FillStyle (colour : string)
| FillRect (x y w h : Z)
| Font (font : string)
| FillText (text : option string) (x : Z) (y : Q).

Definition NOTE_WIDTH : Z := CELL_SIZE.
Definition NOTE_HEIGHT : Z := CELL_SIZE.
Definition SELECTED_NOTE_COLOR : string := "#88178F".
Definition NOTE_COLOR : string := "#276C9E".

(** Lines 63-73; [canvasWidth], [canvasHeight] are [ctx.canvas.width] and
    [ctx.canvas.height]. *)
Definition drawGrid (canvasWidth canvasHeight : Z) (numberOfRows numberOfCols : nat)
  : list CanvasOp :=
  [ClearRect 0 0 canvasWidth canvasHeight; BeginPath]
    ++ flat_map (fun row =>
                   map (fun col => PathRect (Z.of_nat col * CELL_SIZE) (Z.of_nat row * CELL_SIZE)
                                            CELL_SIZE CELL_SIZE)
                       (seq 0 numberOfCols))
                (seq 0 numberOfRows)
    ++ [StrokeStyle "lightgray"; Stroke].

(** The rectangle [drawNote] fills for a note: [x], [y], [width], [height]
    of lines 76-79. *)
Definition noteRect (n : Note) : Z * Z * Z * Z :=
  (colIndex n * NOTE_WIDTH, rowIndex n * NOTE_HEIGHT, NOTE_WIDTH * duration n, NOTE_HEIGHT).

(** The square of the resize handle (line 91). *)
Definition handleRect (n : Note) : Z * Z * Z * Z :=
  let '(x, y, width, height) := noteRect n in (x + width - 5, y + height - 5, 5, 5).

(** Lines 75-92. *)
Definition drawNote (n : Note) : list CanvasOp :=
  let '(x, y, width, height) := noteRect n in
  let noteColor := if selected n then SELECTED_NOTE_COLOR else NOTE_COLOR in
  [FillStyle noteColor;
   FillRect x y width height;
   FillStyle "white";
   Font "10px Arial";
   FillText (note n) (x + 2) (inject_Z y + inject_Z height / 2 + 4);
   FillStyle "white";
   FillRect (x + width - 5) (y + height - 5) 5 5].

(** Lines 182-189, on a canvas of the size the component gives it
    (lines 557-560). *)
Definition drawAllNotes (s : State) : list CanvasOp :=
  ClearRect 0 0 (numberOfColumns s * CELL_SIZE) (Z.of_nat (List.length (allNotes s)) * CELL_SIZE)
    :: flat_map drawNote (notes s).

(** The pixels a [fillRect(x, y, w, h)] with [w, h >= 0] paints. *)
Definition insideRect (px py : Q) (r : Z * Z * Z * Z) : Prop :=
  let '(x, y, w, h) := r in
  (inject_Z x <= px /\ px < inject_Z (x + w))%Q /\ (inject_Z y <= py /\ py < inject_Z (y + h))%Q.

(** ** Events and steps *)

(** Everything the user, the scheduler or React can make the component do. *)
Inductive Event :=
| Mounted                                            (* effect of lines 173-180 *)
| StartAudio
| KeyDown (name : string)
| KeyUp (name : string)
| CanvasClick (now : Z) (x y : Q)
| MouseDown (x y : Q)
| MouseMove (x y : Q)
| MouseUp                                            (* onMouseUp, onMouseLeave *)
| PlayStopButton                                     (* isPlaying ? stopPlayback : playRecorded *)
| PlaybackEnded
| ClearAllNotes
| AddRandomNote (now : Z) (r1 r2 r3 : Q)
| MidiUpload (file : option (string + Midi.File))
| AddPythagoreanChords (now : nat -> Z) (toNote : float -> string)
| StaffViewSwitch (checked : bool).

Definition handle (e : Event) (s : State) : State :=
  match e with
  | Mounted => setSynth true s
  | StartAudio => emit [ToneStart] s
  | KeyDown name => playNote (Some name) s
  | KeyUp name => stopNote (Some name) s
  | CanvasClick now x y => handleCanvasClick now x y s
  | MouseDown x y => handleMouseDown x y s
  | MouseMove x y => handleMouseMove x y s
  | MouseUp => handleMouseUp s
  | PlayStopButton => if isPlaying s then stopPlayback s else playRecorded s
  | PlaybackEnded => playbackEnded s
  | ClearAllNotes => clearAllNotes s
  | AddRandomNote now r1 r2 r3 => addRandomNote now r1 r2 r3 s
  | MidiUpload file => handleMidiUpload file s
  | AddPythagoreanChords now toNote => addPythagoreanChords now toNote s
  | StaffViewSwitch checked => setShowStaffView checked s
  end.

(** One step of the running component: a handler runs on the committed state,
    or the component renders (and with it the keyboard strip). *)
Inductive step : State -> State -> Prop :=
| step_handle (e : Event) (s : State) : step s (handle e s)
| step_render (s : State) : step s (renderPiano s).

(** Runs.  Besides single steps, a run may resume at [u] an import that was
    called at an earlier state [t] of the run, with the column count of [t]
    in its closure. *)
Inductive steps : State -> State -> Prop :=
| steps_refl (s : State) : steps s s
| steps_next (s t u : State) : steps s t -> step t u -> steps s u
| steps_resume (s t u : State) (file : option (string + Midi.File)) :
    steps s t -> steps t u -> steps s (resumeMidiUpload (numberOfColumns t) file u).

Definition reachable (s : State) : Prop := steps initialState s.

(** A handler followed by the one render React commits for its updates. *)
Definition dispatch (e : Event) (s : State) : State := renderPiano (handle e s).

(** ** Predicates of the statements below *)

(** The note a click creates at the cell under [(x, y)]. *)
Definition clickedCellNote (now : Z) (x y : Q) (s : State) : Note :=
  mkNote ("note-" ++ showZ now) (at_index (allNotes s) (cellIndex y))
         (cellIndex x) 1 (cellIndex y) (cellIndex x) true.

(** What a pointer move does to the store during a resize of [sel]. *)
Definition resized (sel : Note) (newDuration : Z) (n : Note) : Note :=
  if String.eqb (id n) (id sel) then with_duration newDuration n else n.

(** A resize gesture on [c] is in progress. *)
Definition resizingNote (c : Note) (s : State) : Prop :=
  isResizing s = true /\ isDragging s = false /\ selectedNote s = Some c.

(** Every note lasts at least one column. *)
Definition durations_ok (l : list Note) : Prop := Forall (fun n => 1 <= duration n) l.

(** Readings under which an event keeps durations at 1 or more:
    [Math.random()] is never negative, and every decoded MIDI note has a
    positive length. *)
Definition keeps_durations (e : Event) : Prop :=
  match e with
  | AddRandomNote _ _ _ r3 => (0 <= r3)%Q
  | MidiUpload (Some (inr tracks)) =>
      Forall (Forall (fun entry => (0 < Midi.duration (fst entry))%Q)) tracks
  | _ => True
  end.

(** The cached row of [n] agrees with its name in the table [table]. *)
Definition row_cached (table : list string) (n : Note) : Prop :=
  note n = at_index table (rowIndex n).

(** The table is the loaded one or its reverse, whatever has happened. *)
Definition table_ok (s : State) : Prop :=
  allNotes s = allNotes_initial \/ allNotes s = rev allNotes_initial.

(** Sum of a list of rationals. *)
Definition Qsum (l : list Q) : Q := fold_right Qplus 0%Q l.

(** The notes flagged as selected all carry one id. *)
Definition selection_coherent (l : list Note) : Prop :=
  forall n m, In n l -> In m l -> selected n = true -> selected m = true -> id n = id m.

(** Every character of [s] passes the test [p]. *)
Fixpoint allChars (p : ascii -> bool) (s : string) : bool :=
  match s with
  | EmptyString => true
  | String c rest => p c && allChars p rest
  end.

(** The events of the pointer on the canvas that are not clicks. *)
Definition isPointerEvent (e : Event) : bool :=
  match e with
  | MouseDown _ _ | MouseMove _ _ | MouseUp => true
  | _ => false
  end.





(** The beats a duration code of the staff stands for, a quarter note being
    one beat (line 145): whole, half, quarter, eighth. *)
Definition symbolBeats (symbol : string) : Q :=
  if String.eqb symbol "w" then 4
  else if String.eqb symbol "h" then 2
  else if String.eqb symbol "q" then 1
  else if String.eqb symbol "8" then 1 # 2
  else 0.

(** * Properties *)

(** ** The definitions at work *)

Example cellIndex_values :
  cellIndex 0 = 0 /\ cellIndex (49 # 2) = 0 /\ cellIndex 25 = 1 /\ cellIndex 1599 = 63.
Proof. repeat split; reflexivity. Qed.

Example table_values :
  List.length allNotes_initial = 84%nat
  /\ at_index allNotes_initial 0 = Some "C2"%string
  /\ at_index allNotes_initial 83 = Some "B8"%string
  /\ at_index allNotes_initial 84 = None
  /\ at_index allNotes_initial (-1) = None
  /\ indexOf allNotes_initial "C4" = 24
  /\ indexOf allNotes_initial "Db4" = -1.
Proof. repeat split; reflexivity. Qed.

(** A note at 1.3 s lasting 0.3 s lands on column 5 with duration 2. *)
Example midi_import_values :
  let file := Some (inr [[(Midi.mkNote "C4" (13 # 10) (3 # 10), (7, "0.5"%string))]]) in
  let s := handleMidiUpload file initialState in
  map (fun n => (id n, rowIndex n, colIndex n, duration n)) (notes s)
  = [("note-7-0.5"%string, 24, 5, 2)]
  /\ numberOfColumns s = 64.
Proof. vm_compute. split; reflexivity. Qed.

(** The pointer on the last five pixels of a note grabs its handle. *)
Example pointer_down_values :
  let s := handleCanvasClick 0 80 10 initialState in
  (isDragging (handleMouseDown 80 10 s), isResizing (handleMouseDown 80 10 s)) = (true, false)
  /\ (isDragging (handleMouseDown 96 10 s), isResizing (handleMouseDown 96 10 s)) = (false, true)
  /\ handleMouseDown 110 10 s = s.
Proof. vm_compute. repeat split; reflexivity. Qed.


(** ** The column count *)

Ltac unfold_handlers :=
  unfold handle, handleCanvasClick, handleMouseDown, handleMouseMove, handleMouseUp,
    playRecorded, playbackEnded, stopPlayback, clearAllNotes, addRandomNote,
    handleMidiUpload, resumeMidiUpload, addPythagoreanChords, playNote, stopNote, renderPiano.

Ltac break_match :=
  repeat match goal with
         | |- context [match ?x with _ => _ end] => destruct x eqn:?
         | |- context [if ?b then _ else _] => destruct b eqn:?
         end.

Lemma handle_columns (e : Event) (s : State) :
  numberOfColumns s <= numberOfColumns (handle e s).
Proof.
  destruct e; unfold_handlers; break_match; cbn; lia.
Qed.

Lemma handle_allNotes (e : Event) (s : State) : allNotes (handle e s) = allNotes s.
Proof.
  destruct e; unfold_handlers; break_match; reflexivity.
Qed.

Lemma step_columns (s t : State) : step s t -> numberOfColumns s <= numberOfColumns t.
Proof.
  intros H; inversion H; subst.
  - apply handle_columns.
  - cbn; lia.
Qed.

Lemma resume_columns (capturedColumns : Z) (file : option (string + Midi.File)) (s : State) :
  numberOfColumns (resumeMidiUpload capturedColumns file s) = numberOfColumns s
  \/ capturedColumns <= numberOfColumns (resumeMidiUpload capturedColumns file s).
Proof.
  unfold resumeMidiUpload. destruct file as [[error | tracks] |]; cbn; auto.
  destruct (importTracks (allNotes s) tracks) as [newNotes maxColumn]. cbn. right. lia.
Qed.

Lemma steps_columns_floor (s t : State) :
  steps s t -> 64 <= numberOfColumns s -> 64 <= numberOfColumns t.
Proof.
  induction 1 as [s | s t u _ IH Hstep | s t u file _ IHt _ IHu]; intros Hs.
  - exact Hs.
  - pose proof (step_columns _ _ Hstep). specialize (IH Hs). lia.
  - specialize (IHt Hs). specialize (IHu IHt).
    destruct (resume_columns (numberOfColumns t) file u) as [-> | Hge]; lia.
Qed.

Lemma reachable_columns (s : State) : reachable s -> 64 <= numberOfColumns s.
Proof. intros H. apply (steps_columns_floor _ _ H). cbn. lia. Qed.

(** C10 at a failing run.  The component is mounted with 64 columns when an
    import is called; while the file is read, a click on the last column
    places a note and the grid grows to 114 columns; then the import resumes
    and writes [Math.max(64, maxColumn + 1)] with the 64 of its closure: the
    grid is back at 64 columns.  Each handler taken alone, and each render,
    leaves the count at or above its value before. *)
Theorem import_resumption_shrinks_grid :
  let called := dispatch Mounted (renderPiano initialState) in
  let clicked := dispatch (CanvasClick 0 1599 10) called in
  let file := Some (inr [[(Midi.mkNote "C4" 0 1, (1, "0.5"%string))]]) in
  let resumed := resumeMidiUpload (numberOfColumns called) file clicked in
  steps initialState resumed
  /\ numberOfColumns called = 64
  /\ numberOfColumns clicked = 114
  /\ numberOfColumns resumed = 64
  /\ (forall e s, numberOfColumns s <= numberOfColumns (handle e s))
  /\ (forall s, numberOfColumns s <= numberOfColumns (renderPiano s)).
Proof.
  cbv zeta. split.
  - apply steps_resume with (t := dispatch Mounted (renderPiano initialState)).
    + eapply steps_next; [eapply steps_next; [eapply steps_next; [apply steps_refl |] |] |].
      * apply step_render.
      * exact (step_handle Mounted _).
      * apply step_render.
    + eapply steps_next; [eapply steps_next; [apply steps_refl |] |].
      * exact (step_handle (CanvasClick 0 1599 10) _).
      * apply step_render.
  - split; [reflexivity |]. split; [reflexivity |]. split; [reflexivity |].
    split; [exact handle_columns | intros s; cbn; lia].
Qed.

(** Random-note add can leave a note hanging over the right edge: with
    64 columns, readings 0.99 and 0.9 give a note on columns 63..66. *)
Example random_note_overhangs :
  let s := addRandomNote 0 0 (99 # 100) (9 # 10) initialState in
  numberOfColumns s = 64 /\
  map (fun n => (colIndex n, duration n)) (notes s) = [(63, 4)].
Proof. vm_compute. split; reflexivity. Qed.

(** ** Clicks *)

Lemma cellIndex_floor (p : Q) :
  (inject_Z (cellIndex p) * 25 <= p /\ p < (inject_Z (cellIndex p) + 1) * 25)%Q.
Proof.
  unfold cellIndex, CELL_SIZE.
  pose proof (Qfloor_le (p / 25)) as Hlo.
  pose proof (Qlt_floor (p / 25)) as Hhi.
  rewrite inject_Z_plus in Hhi.
  change (inject_Z 1) with 1%Q in Hhi. change (inject_Z 25) with 25%Q.
  generalize dependent (inject_Z (Qfloor (p / 25))). intros k Hlo Hhi.
  assert (Hp : (p == p / 25 * 25)%Q) by (field; discriminate).
  generalize dependent (p / 25)%Q. intros q Hlo Hhi Hp.
  split; lra.
Qed.

Lemma NoDup_map_inj {A B} (f : A -> B) (l : list A) (a b : A) :
  NoDup (map f l) -> In a l -> In b l -> f a = f b -> a = b.
Proof.
  induction l as [| h l IH]; simpl; intros Hnd Ha Hb Hf; [contradiction |].
  inversion Hnd as [| ? ? Hnotin Hnd']; subst.
  destruct Ha as [-> | Ha], Hb as [-> | Hb]; auto.
  - exfalso. apply Hnotin. rewrite Hf. apply in_map, Hb.
  - exfalso. apply Hnotin. rewrite <- Hf. apply in_map, Ha.
Qed.

Lemma find_covering (row col : Z) (l : list Note) :
  (exists n, In n l /\ covers row col n = true) ->
  exists c, find (covers row col) l = Some c.
Proof.
  intros [n [Hin Hcov]].
  destruct (find (covers row col) l) as [c |] eqn:Hfind; [eauto |].
  pose proof (find_none _ _ Hfind n Hin) as Hnone. congruence.
Qed.

Lemma find_not_covering (row col : Z) (l : list Note) :
  (forall n, In n l -> covers row col n = false) -> find (covers row col) l = None.
Proof.
  intros Hall. destruct (find (covers row col) l) as [c |] eqn:Hfind; [| reflexivity].
  apply find_some in Hfind. destruct Hfind as [Hin Hcov].
  rewrite (Hall c Hin) in Hcov. discriminate.
Qed.

Lemma click_creates (now : Z) (x y : Q) (s : State) :
  find (covers (cellIndex y) (cellIndex x)) (notes s) = None ->
  isDragging s = false -> isResizing s = false ->
  notes (handleCanvasClick now x y s)
    = map (with_selected false) (notes s) ++ [clickedCellNote now x y s]
  /\ selectedNote (handleCanvasClick now x y s) = Some (clickedCellNote now x y s)
  /\ numberOfColumns (handleCanvasClick now x y s)
     = if cellIndex x >=? numberOfColumns s - 1
       then numberOfColumns s + 50 else numberOfColumns s.
Proof.
  intros Hfind Hdrag Hres.
  unfold handleCanvasClick, playNote. rewrite Hfind, Hdrag, Hres. cbn.
  break_match; cbn; auto.
Qed.

Lemma click_selects (now : Z) (x y : Q) (s : State) (c : Note) :
  find (covers (cellIndex y) (cellIndex x)) (notes s) = Some c ->
  notes (handleCanvasClick now x y s)
    = map (fun n => with_selected (String.eqb (id n) (id c)) n) (notes s)
  /\ selectedNote (handleCanvasClick now x y s) = Some c
  /\ numberOfColumns (handleCanvasClick now x y s) = numberOfColumns s.
Proof.
  intros Hfind. unfold handleCanvasClick. rewrite Hfind. cbn. auto.
Qed.

(** Ids stay distinct as long as the clock gives each new note a reading
    no note of the store was made from. *)
Lemma click_ids_distinct (now : Z) (x y : Q) (s : State) :
  NoDup (map id (notes s)) ->
  ~ In ("note-" ++ showZ now)%string (map id (notes s)) ->
  NoDup (map id (notes (handleCanvasClick now x y s))).
Proof.
  intros Hids Hfresh. unfold handleCanvasClick, playNote.
  assert (Hsame : forall f : Note -> bool,
             map id (map (fun n => with_selected (f n) n) (notes s)) = map id (notes s))
    by (intros f; rewrite map_map; apply map_ext; reflexivity).
  assert (Hcleared : map id (map (with_selected false) (notes s)) = map id (notes s))
    by (rewrite map_map; apply map_ext; reflexivity).
  break_match; cbn; rewrite ?Hsame; try exact Hids;
    rewrite map_app, Hcleared; cbn;
    (apply NoDup_app; [exact Hids | constructor; [intros [] | constructor] |]);
    intros a Ha [<- | []]; exact (Hfresh Ha).
Qed.

Lemma covers_spec (row col : Z) (n : Note) :
  covers row col n = true
  <-> rowIndex n = row /\ colIndex n <= col < colIndex n + duration n.
Proof.
  unfold covers. rewrite !andb_true_iff, Z.eqb_eq, Z.leb_le, Z.ltb_lt. tauto.
Qed.

(** What a click on a cell held by a note does, field by field: the notes
    stay in place with every field but [selected] as it was, and a note is
    flagged exactly when its id is the id of the note found. *)
Lemma click_flags_by_id (now : Z) (x y : Q) (s : State) (c : Note) :
  find (covers (cellIndex y) (cellIndex x)) (notes s) = Some c ->
  let s' := handleCanvasClick now x y s in
  List.length (notes s') = List.length (notes s)
  /\ forall i n, nth_error (notes s) i = Some n ->
       exists n', nth_error (notes s') i = Some n'
         /\ (id n', note n', start n', duration n', rowIndex n', colIndex n')
            = (id n, note n, start n, duration n, rowIndex n, colIndex n)
         /\ selected n' = String.eqb (id n) (id c).
Proof.
  intros Hfind s'. destruct (click_selects now x y s c Hfind) as [Hnotes _].
  subst s'. rewrite Hnotes. split; [apply length_map |].
  intros i n Hn. exists (with_selected (String.eqb (id n) (id c)) n).
  split; [| split; reflexivity].
  apply map_nth_error with (f := fun m => with_selected (String.eqb (id m) (id c)) m). exact Hn.
Qed.

(** C1 at a failing run.  Add Random Note is pressed twice while
    [Date.now()] reads the same millisecond, so both notes get the id
    [note-7]; they lie on different rows and columns.  A click on the cell
    of the first finds it, and flags both: the test is [note.id ===
    clickedNote.id].  The import and the chord generator give their notes
    ids with a second part ([Math.random()], the index) that tells them
    apart; the click and the random note do not. *)
Theorem click_flags_every_note_with_the_id :
  let mounted := dispatch Mounted (renderPiano initialState) in
  let s1 := dispatch (AddRandomNote 7 0 (5 # 100) 0) mounted in
  let s2 := dispatch (AddRandomNote 7 (1 # 2) (1 # 2) (1 # 2)) s1 in
  let s3 := dispatch (CanvasClick 8 80 10) s2 in
  reachable s3
  /\ map (fun n => (id n, rowIndex n, colIndex n, duration n, selected n)) (notes s2)
     = [("note-7"%string, 0, 3, 1, false); ("note-7"%string, 42, 32, 3, false)]
  /\ (cellIndex 80, cellIndex 10) = (3, 0)
  /\ option_map (fun n => (rowIndex n, colIndex n)) (selectedNote s3) = Some (0, 3)
  /\ map (fun n => (id n, rowIndex n, colIndex n, duration n, selected n)) (notes s3)
     = [("note-7"%string, 0, 3, 1, true); ("note-7"%string, 42, 32, 3, true)].
Proof.
  cbv zeta. split; [| repeat split; reflexivity].
  repeat (eapply steps_next; [| apply step_render];
          eapply steps_next; [| apply step_handle]).
  eapply steps_next; [apply steps_refl | apply step_render].
Qed.

(** C5.  When a click places a new note (no note holds the clicked cell, no
    drag or resize in progress): at a column [>= numberOfColumns - 1] the
    column count grows by exactly 50, at a smaller column it is unchanged. *)
Theorem click_grows_columns (now : Z) (x y : Q) (s : State) :
  find (covers (cellIndex y) (cellIndex x)) (notes s) = None ->
  isDragging s = false -> isResizing s = false ->
  let s' := handleCanvasClick now x y s in
  (exists newNote, notes s' = map (with_selected false) (notes s) ++ [newNote]
                   /\ colIndex newNote = cellIndex x)
  /\ (numberOfColumns s - 1 <= cellIndex x -> numberOfColumns s' = numberOfColumns s + 50)
  /\ (cellIndex x < numberOfColumns s - 1 -> numberOfColumns s' = numberOfColumns s).
Proof.
  intros Hfind Hdrag Hres s'.
  destruct (click_creates now x y s Hfind Hdrag Hres) as [Hnotes [_ Hcols]].
  subst s'. split; [eexists; split; [exact Hnotes | reflexivity] |].
  rewrite Hcols. split; intros Hc.
  - destruct (cellIndex x >=? numberOfColumns s - 1) eqn:E; [reflexivity | lia].
  - destruct (cellIndex x >=? numberOfColumns s - 1) eqn:E; [lia | reflexivity].
Qed.

(** With 64 columns, a click in column 63 gives 114 columns. *)
Lemma click_grows_columns_witness :
  numberOfColumns (handleCanvasClick 0 1580 10 initialState) = 64 + 50.
Proof.
  destruct (click_grows_columns 0 1580 10 initialState eq_refl eq_refl eq_refl)
    as [_ [Hgrow _]].
  apply Hgrow. vm_compute. discriminate.
Defined.

(** ** Resizing *)

Lemma mouseDown_resize (x0 y0 : Q) (s0 : State) :
  isDragging s0 = false -> isResizing s0 = false ->
  isResizing (handleMouseDown x0 y0 s0) = true ->
  exists c, find (covers (cellIndex y0) (cellIndex x0)) (notes s0) = Some c
            /\ resizingNote c (handleMouseDown x0 y0 s0)
            /\ notes (handleMouseDown x0 y0 s0) = notes s0.
Proof.
  unfold handleMouseDown, resizingNote. intros Hdrag Hres.
  destruct (find _ (notes s0)) as [c |]; [| congruence].
  destruct (isResizeHandle x0 c); cbn; [| congruence].
  intros _. exists c. auto.
Qed.

Lemma mouseMove_resize (x y : Q) (c : Note) (s : State) :
  resizingNote c s ->
  resizingNote c (dispatch (MouseMove x y) s)
  /\ notes (dispatch (MouseMove x y) s)
     = map (resized c (Z.max 1 (cellIndex x - colIndex c + 1))) (notes s).
Proof.
  intros [Hres [Hdrag Hsel]].
  unfold resizingNote, dispatch, handle, handleMouseMove, renderPiano.
  rewrite Hres, Hdrag, Hsel. cbn. auto.
Qed.

Lemma resized_twice (c : Note) (d d' : Z) (l : list Note) :
  map (resized c d') (map (resized c d) l) = map (resized c d') l.
Proof.
  rewrite map_map. apply map_ext. intros n. unfold resized.
  destruct (String.eqb (id n) (id c)) eqn:E; cbn; rewrite E; reflexivity.
Qed.

Lemma mouseMoves_resize (c : Note) (l0 : list Note) (moves : list (Q * Q)) (s : State) :
  resizingNote c s ->
  (notes s = l0 \/ exists d, notes s = map (resized c d) l0) ->
  let s' := fold_left (fun st p => dispatch (MouseMove (fst p) (snd p)) st) moves s in
  resizingNote c s'
  /\ (notes s' = l0 \/ exists d, notes s' = map (resized c d) l0).
Proof.
  revert s. induction moves as [| [x y] moves IH]; intros s Hrz Hnotes; cbn.
  - auto.
  - destruct (mouseMove_resize x y c s Hrz) as [Hrz' Hn'].
    apply IH; [exact Hrz' |]. right.
    destruct Hnotes as [H0 | [d Hd]].
    + rewrite Hn', H0. eauto.
    + rewrite Hn', Hd, resized_twice. eauto.
Qed.

(** C2, as the code has it.  A resize gesture starts with a pointer-down on
    the trailing pixels of a note [c] of the store.  After every pointer move
    of the gesture, with the pointer in column [col], the store holds the
    same notes in the same places with every field but [duration] as at the
    start of the gesture; the duration of [c] (of every note with its id) is
    [max 1 (col - colIndex + 1)], the number of columns from the note's start
    column through the pointer's column, and 1 when the pointer is left of
    the start column; the duration of every other note is as it was. *)
Theorem resize_follows_pointer (x0 y0 : Q) (s0 : State) (moves : list (Q * Q)) (x y : Q) :
  isDragging s0 = false -> isResizing s0 = false ->
  isResizing (handleMouseDown x0 y0 s0) = true ->
  let s' := fold_left (fun st p => dispatch (MouseMove (fst p) (snd p)) st)
                      (moves ++ [(x, y)]) (handleMouseDown x0 y0 s0) in
  exists c,
    In c (notes s0) /\ covers (cellIndex y0) (cellIndex x0) c = true
    /\ List.length (notes s') = List.length (notes s0)
    /\ (forall i n, nth_error (notes s0) i = Some n ->
          exists n', nth_error (notes s') i = Some n'
            /\ (id n', note n', start n', rowIndex n', colIndex n', selected n')
               = (id n, note n, start n, rowIndex n, colIndex n, selected n)
            /\ (id n = id c -> duration n' = Z.max 1 (cellIndex x - colIndex c + 1))
            /\ (id n <> id c -> duration n' = duration n))
    /\ exists c', In c' (notes s') /\ id c' = id c /\ colIndex c' = colIndex c
                  /\ duration c' = Z.max 1 (cellIndex x - colIndex c' + 1)
                  /\ 1 <= duration c'
                  /\ (cellIndex x < colIndex c' -> duration c' = 1).
Proof.
  intros Hdrag Hres Hdown s'.
  destruct (mouseDown_resize x0 y0 s0 Hdrag Hres Hdown) as [c [Hfind [Hrz Hnotes]]].
  destruct (find_some _ _ Hfind) as [Hin Hcov].
  exists c. split; [exact Hin |]. split; [exact Hcov |].
  subst s'. rewrite fold_left_app. cbn [fold_left fst snd].
  destruct (mouseMoves_resize c (notes s0) moves _ Hrz (or_introl Hnotes)) as [Hrz' Hn'].
  destruct (mouseMove_resize x y c _ Hrz') as [_ Hlast].
  assert (Hfinal : notes (dispatch (MouseMove x y)
                            (fold_left (fun st p => dispatch (MouseMove (fst p) (snd p)) st)
                                       moves (handleMouseDown x0 y0 s0)))
                   = map (resized c (Z.max 1 (cellIndex x - colIndex c + 1))) (notes s0)).
  { rewrite Hlast. destruct Hn' as [-> | [d ->]]; [reflexivity | apply resized_twice]. }
  rewrite Hfinal. split; [apply length_map |]. split.
  - intros i n Hn.
    exists (resized c (Z.max 1 (cellIndex x - colIndex c + 1)) n).
    split; [apply map_nth_error, Hn |].
    unfold resized. destruct (String.eqb (id n) (id c)) eqn:E.
    + split; [reflexivity |]. split; [reflexivity |].
      apply String.eqb_eq in E. intros Hne. contradiction.
    + split; [reflexivity |]. split; [| reflexivity].
      apply String.eqb_neq in E. intros Heq. contradiction.
  - exists (resized c (Z.max 1 (cellIndex x - colIndex c + 1)) c).
    split; [apply in_map, Hin |].
    unfold resized. rewrite String.eqb_refl. cbn.
    split; [reflexivity |]. split; [reflexivity |]. split; [reflexivity |]. lia.
Qed.

(** A note placed at column 3 is grabbed by its handle; the pointer goes to
    column 5, then back to column 1: the note is one column long again. *)
Lemma resize_follows_pointer_witness :
  let s0 := handleCanvasClick 0 80 10 initialState in
  let s' := fold_left (fun st p => dispatch (MouseMove (fst p) (snd p)) st)
                      ([(130, 10)] ++ [(30, 10)])%Q (handleMouseDown 99 10 s0) in
  isResizing (handleMouseDown 99 10 s0) = true
  /\ exists n', nth_error (notes s') 0 = Some n' /\ colIndex n' = 3 /\ duration n' = 1.
Proof.
  intros s0 s'. split; [reflexivity |].
  destruct (resize_follows_pointer 99 10 s0 [(130, 10)%Q] 30 10 eq_refl eq_refl eq_refl)
    as [c [Hin [_ [_ [Hall _]]]]].
  destruct Hin as [<- | []].
  destruct (Hall 0%nat (clickedCellNote 0 80 10 initialState) eq_refl)
    as [n' [Hn' [Hsame [Hdur _]]]].
  exists n'. split; [exact Hn' |]. split.
  - apply (f_equal (fun v => snd (fst v))) in Hsame. cbn [fst snd] in Hsame.
    rewrite Hsame. reflexivity.
  - rewrite (Hdur eq_refl). reflexivity.
Defined.

(** C2 as stated fails: with the note starting at column 3 and the pointer in
    column 5, the distance between the two columns is 2, and the move leaves
    the note with duration 3. *)
Lemma resize_distance_counterexample :
  let s := handleMouseDown 99 10 (handleCanvasClick 0 80 10 initialState) in
  let s' := handleMouseMove 130 10 s in
  isResizing s = true /\ isDragging s = false
  /\ option_map colIndex (selectedNote s) = Some 3
  /\ cellIndex 130 = 5
  /\ map (fun n => (colIndex n, duration n)) (notes s') = [(3, 3)]
  /\ ~ (forall n, In n (notes s') -> duration n = Z.max 1 (cellIndex 130 - colIndex n)).
Proof.
  cbv zeta. repeat split; try reflexivity.
  intros H. specialize (H _ (or_introl eq_refl)). vm_compute in H. discriminate.
Qed.

(** ** Durations *)

Lemma durations_ok_map (f : Note -> Note) (l : list Note) :
  (forall n, 1 <= duration n -> 1 <= duration (f n)) ->
  durations_ok l -> durations_ok (map f l).
Proof.
  intros Hf Hl. unfold durations_ok. rewrite Forall_map.
  eapply Forall_impl; [| exact Hl]. exact Hf.
Qed.

Lemma durations_ok_snoc (l : list Note) (n : Note) :
  durations_ok l -> 1 <= duration n -> durations_ok (l ++ [n]).
Proof.
  intros Hl Hn. apply Forall_app. split; [exact Hl | constructor; [exact Hn | constructor]].
Qed.

Lemma Qceiling_pos (q : Q) : (0 < q)%Q -> 1 <= Qceiling q.
Proof.
  intros Hq. assert (H : 0 < Qceiling q); [| lia].
  rewrite Zlt_Qlt. eapply Qlt_le_trans; [exact Hq | apply Qle_ceiling].
Qed.

Lemma Qfloor_nonneg (q : Q) : (0 <= q)%Q -> 0 <= Qfloor q.
Proof.
  intros Hq. change 0 with (Qfloor 0). apply Qfloor_resp_le, Hq.
Qed.

Lemma importNote_durations (table : list string) (acc : list Note * Z)
      (entry : Midi.Note * Midi.Stamp) :
  (0 < Midi.duration (fst entry))%Q ->
  durations_ok (fst acc) -> durations_ok (fst (importNote table acc entry)).
Proof.
  destruct acc as [newNotes maxColumn], entry as [midiNote [now rnd]]. cbn.
  intros Hpos Hacc. destruct (negb _); cbn; [| exact Hacc].
  apply durations_ok_snoc; [exact Hacc |]. cbn.
  apply Qceiling_pos. lra.
Qed.

Lemma importTrack_durations (table : list string) (track : Midi.Track)
      (acc : list Note * Z) :
  Forall (fun entry => (0 < Midi.duration (fst entry))%Q) track ->
  durations_ok (fst acc) ->
  durations_ok (fst (fold_left (importNote table) track acc)).
Proof.
  revert acc. induction track as [| entry track IH]; intros acc Hpos Hacc; cbn.
  - exact Hacc.
  - inversion Hpos; subst. apply IH; [assumption |].
    apply importNote_durations; assumption.
Qed.

Lemma importTracks_durations (table : list string) (tracks : Midi.File) :
  Forall (Forall (fun entry => (0 < Midi.duration (fst entry))%Q)) tracks ->
  durations_ok (fst (importTracks table tracks)).
Proof.
  unfold importTracks.
  assert (Hnil : durations_ok (fst (@nil Note, 0))) by constructor.
  revert Hnil. generalize (@nil Note, 0).
  induction tracks as [| track tracks IH]; intros acc Hacc Hpos; cbn.
  - exact Hacc.
  - inversion Hpos; subst. apply IH; [| assumption].
    apply importTrack_durations; assumption.
Qed.

(** Every operation keeps durations at 1 or more, a MIDI import included as
    long as no decoded note has length zero. *)
Lemma handle_durations (e : Event) (s : State) :
  keeps_durations e -> durations_ok (notes s) -> durations_ok (notes (handle e s)).
Proof.
  destruct e; cbn [keeps_durations]; intros He Hs;
    try (unfold_handlers; break_match; cbn; exact Hs).
  - (* CanvasClick *)
    unfold handle, handleCanvasClick, playNote. break_match; cbn; try exact Hs;
      try (apply durations_ok_map; [intros; cbn; assumption | exact Hs]);
      (apply durations_ok_snoc; [| cbn; lia]);
      (apply durations_ok_map; [intros; cbn; assumption | exact Hs]).
  - (* MouseMove *)
    unfold handle, handleMouseMove. break_match; cbn; try exact Hs;
      (apply durations_ok_map; [| exact Hs]); intros moved Hmoved;
      destruct (String.eqb (id moved) (id _)); cbn; lia.
  - (* ClearAllNotes *)
    constructor.
  - (* AddRandomNote *)
    unfold handle, addRandomNote. cbn [notes setNotes].
    apply durations_ok_snoc; [exact Hs |]. cbn [duration].
    assert (0 <= Qfloor (r3 * 4))
      by (apply Qfloor_nonneg, Qmult_le_0_compat; [exact He | discriminate]).
    lia.
  - (* MidiUpload *)
    unfold handle, handleMidiUpload, resumeMidiUpload.
    destruct file as [[error | tracks] |]; cbn; try exact Hs.
    pose proof (importTracks_durations (allNotes s) tracks He) as Himp.
    destruct (importTracks (allNotes s) tracks) as [newNotes maxColumn]. exact Himp.
  - (* AddPythagoreanChords *)
    unfold handle, addPythagoreanChords. cbn. apply Forall_app. split; [exact Hs |].
    repeat constructor; cbn; lia.
Qed.

(** C3 at the input the import misses: a decoded note of length zero (its
    note-off on the tick of its note-on) is stored with duration
    [Math.ceil(0 * 4) = 0]. *)
Theorem midi_import_zero_duration :
  let file := Some (inr [[(Midi.mkNote "C4" 0 0, (0, "0.5"%string))]]) in
  map (fun n => (note n, duration n)) (notes (handleMidiUpload file initialState))
  = [(Some "C4"%string, 0)].
Proof. vm_compute. reflexivity. Qed.

(** ** Pitch names and rows *)

Lemma indexOf_range (table : list string) (x : string) :
  -1 <= indexOf table x < Z.of_nat (List.length table).
Proof.
  induction table as [| y table IH]; cbn [indexOf List.length]; [lia |].
  destruct (String.eqb y x); [lia |].
  destruct (indexOf table x <? 0) eqn:E; lia.
Qed.

Lemma indexOf_at_index (table : list string) (x : string) :
  indexOf table x <> -1 -> at_index table (indexOf table x) = Some x.
Proof.
  induction table as [| y table IH]; cbn [indexOf]; [congruence |].
  destruct (String.eqb y x) eqn:Exy.
  - intros _. apply String.eqb_eq in Exy. subst. reflexivity.
  - pose proof (indexOf_range table x) as Hr.
    destruct (indexOf table x <? 0) eqn:E; [congruence |].
    intros _. apply Z.ltb_ge in E.
    assert (Hne : indexOf table x <> -1) by lia. specialize (IH Hne).
    unfold at_index in *.
    destruct (indexOf table x + 1 <? 0) eqn:E1; [lia |].
    destruct (indexOf table x <? 0) eqn:E2; [lia |].
    replace (Z.to_nat (indexOf table x + 1)) with (S (Z.to_nat (indexOf table x))) by lia.
    exact IH.
Qed.


Lemma indexOf_absent_inv (table : list string) (x : string) :
  indexOf table x = -1 -> ~ In x table.
Proof.
  intros Hidx Hin.
  induction table as [| y l IH]; [contradiction |].
  cbn [indexOf] in Hidx. destruct (String.eqb y x) eqn:E; [discriminate |].
  destruct Hin as [-> | Hin]; [rewrite String.eqb_refl in E; discriminate |].
  pose proof (indexOf_range l x).
  destruct (indexOf l x <? 0) eqn:E0; [| lia].
  apply IH; [| exact Hin]. apply Z.ltb_lt in E0. lia.
Qed.

(** Each path that writes a name writes the one the table holds, when the
    handler runs, at the row it writes. *)
Lemma click_row_cached (now : Z) (x y : Q) (s : State) :
  row_cached (allNotes s) (clickedCellNote now x y s).
Proof. reflexivity. Qed.

Lemma drag_row_cached (x y : Q) (s : State) (sel n : Note) :
  isDragging s = true -> selectedNote s = Some sel ->
  In n (notes (handleMouseMove x y s)) -> id n = id sel ->
  row_cached (allNotes s) n /\ rowIndex n = cellIndex y /\ colIndex n = cellIndex x.
Proof.
  intros Hdrag Hsel. unfold handleMouseMove. rewrite Hdrag, Hsel. cbn.
  rewrite in_map_iff. intros [m [Hm _]] Hid. subst n.
  destruct (String.eqb (id m) (id sel)) eqn:E.
  - cbn. unfold row_cached. cbn. auto.
  - apply String.eqb_neq in E. contradiction.
Qed.

Lemma importNote_row_cached (table : list string) (acc : list Note * Z)
      (entry : Midi.Note * Midi.Stamp) :
  Forall (row_cached table) (fst acc) ->
  Forall (row_cached table) (fst (importNote table acc entry)).
Proof.
  destruct acc as [newNotes maxColumn], entry as [midiNote [now rnd]]. cbn.
  intros Hacc. destruct (indexOf table (Midi.name midiNote) =? -1) eqn:E; cbn; [exact Hacc |].
  apply Forall_app. split; [exact Hacc |]. constructor; [| constructor].
  unfold row_cached. cbn. symmetry. apply indexOf_at_index. apply Z.eqb_neq, E.
Qed.

Lemma importTracks_row_cached (table : list string) (tracks : Midi.File) :
  Forall (row_cached table) (fst (importTracks table tracks)).
Proof.
  unfold importTracks.
  assert (Hnil : Forall (row_cached table) (fst (@nil Note, 0))) by constructor.
  revert Hnil. generalize (@nil Note, 0).
  induction tracks as [| track tracks IH]; intros acc Hacc; cbn; [exact Hacc |].
  apply IH. revert acc Hacc.
  induction track as [| entry track IHt]; intros acc Hacc; cbn; [exact Hacc |].
  apply IHt, importNote_row_cached, Hacc.
Qed.

Lemma resume_allNotes (capturedColumns : Z) (file : option (string + Midi.File)) (s : State) :
  allNotes (resumeMidiUpload capturedColumns file s) = allNotes s.
Proof.
  unfold resumeMidiUpload. destruct file as [[error | tracks] |]; cbn; try reflexivity.
  destruct (importTracks (allNotes s) tracks). reflexivity.
Qed.

Lemma steps_table_ok (s t : State) : steps s t -> table_ok s -> table_ok t.
Proof.
  induction 1 as [s | s t u _ IH Hstep | s t u file _ IHt _ IHu]; intros Hs.
  - exact Hs.
  - specialize (IH Hs). inversion Hstep; subst.
    + unfold table_ok. rewrite handle_allNotes. exact IH.
    + unfold table_ok, renderPiano. cbn.
      destruct IH as [-> | ->]; [right; reflexivity | left; apply rev_involutive].
  - unfold table_ok. rewrite resume_allNotes. exact (IHu (IHt Hs)).
Qed.

Lemma reachable_table_ok (s : State) : reachable s -> table_ok s.
Proof. intros H. apply (steps_table_ok _ _ H). left. reflexivity. Qed.

(** No row reads the same name in the table and in its reverse. *)
Lemma reversed_rows_differ (i : Z) :
  0 <= i < 84 ->
  at_index allNotes_initial i <> at_index (rev allNotes_initial) i.
Proof.
  intros Hi.
  assert (Hall : forallb (fun k => negb (same_name (at_index allNotes_initial (Z.of_nat k))
                                                   (at_index (rev allNotes_initial) (Z.of_nat k))))
                         (seq 0 84) = true) by (vm_compute; reflexivity).
  rewrite forallb_forall in Hall.
  specialize (Hall (Z.to_nat i)). rewrite Z2Nat.id in Hall by lia.
  assert (Hin : In (Z.to_nat i) (seq 0 84)) by (apply in_seq; lia).
  specialize (Hall Hin). intros Heq. rewrite Heq in Hall.
  destruct (at_index (rev allNotes_initial) i); cbn in Hall; [| discriminate].
  rewrite String.eqb_refl in Hall. discriminate.
Qed.

(** A render of the keyboard strip leaves every note of the grid out of step
    with the table. *)
Lemma render_breaks_row_cache (s : State) (n : Note) :
  table_ok s -> 0 <= rowIndex n < 84 ->
  row_cached (allNotes s) n -> ~ row_cached (allNotes (renderPiano s)) n.
Proof.
  unfold row_cached, renderPiano. cbn. intros Htable Hrow Hcached Hafter.
  rewrite Hcached in Hafter.
  destruct Htable as [Ht | Ht]; rewrite Ht in Hafter.
  - exact (reversed_rows_differ _ Hrow Hafter).
  - rewrite rev_involutive in Hafter. symmetry in Hafter.
    exact (reversed_rows_differ _ Hrow Hafter).
Qed.

Lemma chords_row_cached (now : nat -> Z) (toNote : float -> string) (s : State) :
  (forall f, In (toNote f) (allNotes s)) -> In "C4"%string (allNotes s) ->
  Forall (row_cached (allNotes s)) (notes s) ->
  Forall (row_cached (allNotes s)) (notes (addPythagoreanChords now toNote s)).
Proof.
  intros Hnames Hbase Hs. unfold addPythagoreanChords. cbn.
  assert (Hfound : forall x, In x (allNotes s) ->
            Some x = at_index (allNotes s) (indexOf (allNotes s) x)).
  { intros x Hx. symmetry. apply indexOf_at_index. intros Habs.
    exact (indexOf_absent_inv _ _ Habs Hx). }
  apply Forall_app. split; [exact Hs |].
  repeat constructor; unfold row_cached; cbn; apply Hfound; auto.
Qed.

(** C4 at a failing run.  The component mounts (first render, then the
    render for [setSynth]); two clicks on empty cells of the top row follow,
    each committed with one render.  Both notes cache row 0; the first is
    named after the table as loaded, the second after its reverse: no table
    whatever has both names at the rows the notes cache. *)
Theorem row_cache_diverges :
  let mounted := dispatch Mounted (renderPiano initialState) in
  let s1 := dispatch (CanvasClick 0 10 10) mounted in
  let s2 := dispatch (CanvasClick 1 40 10) s1 in
  map (fun n => (rowIndex n, note n)) (notes s2)
  = [(0, Some "C2"%string); (0, Some "B8"%string)]
  /\ at_index (allNotes mounted) 0 = Some "C2"%string
  /\ at_index (allNotes s1) 0 = Some "B8"%string
  /\ forall table, ~ Forall (row_cached table) (notes s2).
Proof.
  cbv zeta. repeat split; try (vm_compute; reflexivity).
  intros table H.
  inversion H as [| first rest1 Hfirst Hrest]; subst.
  inversion Hrest as [| second rest2 Hsecond _]; subst.
  unfold row_cached in Hfirst, Hsecond. cbn in Hfirst, Hsecond.
  rewrite <- Hfirst in Hsecond. discriminate.
Qed.

(** The same on a drag: the note of the first click is taken by its body and
    dragged down one row at a time; row 1 names it from the table as loaded,
    row 2 from its reverse. *)
Example drag_names_alternate :
  let mounted := dispatch Mounted (renderPiano initialState) in
  let s1 := dispatch (CanvasClick 0 10 10) mounted in
  let s2 := dispatch (MouseDown 10 10) s1 in
  let s3 := dispatch (MouseMove 10 35) s2 in
  let s4 := dispatch (MouseMove 10 60) s3 in
  isDragging s2 = true
  /\ map (fun n => (rowIndex n, note n)) (notes s3) = [(1, Some "C#2"%string)]
  /\ map (fun n => (rowIndex n, note n)) (notes s4) = [(2, Some "A8"%string)]
  /\ at_index allNotes_initial 2 = Some "D2"%string.
Proof. vm_compute. repeat split; reflexivity. Qed.

(** ** MIDI import *)






(** C7.  When decoding throws, the handler's only effects are the console
    error and the destructive toast; the state, with its notes and its column
    count, is the one the handler started from. *)
Theorem midi_parse_failure (error : string) (s : State) :
  let s' := handleMidiUpload (Some (inl error)) s in
  notes s' = notes s
  /\ numberOfColumns s' = numberOfColumns s
  /\ trace s'
     = trace s
         ++ [ConsoleError "Error parsing MIDI file:" error;
             Toast "Error uploading MIDI file"
                   "There was a problem processing the MIDI file. Please try again with a different file."
                   true]
  /\ (synth s', activeNotes s', isPlaying s', isDragging s', isResizing s',
      selectedNote s', showStaffView s', allNotes s')
     = (synth s, activeNotes s, isPlaying s, isDragging s, isResizing s,
        selectedNote s, showStaffView s, allNotes s).
Proof. cbn. auto. Qed.

(** ** Staff view: splitting long notes *)

Lemma splitLoop_spec (baseNote : string) (remainingDuration : Q) (result : list Piece) :
  exists pieces,
    splitLoop baseNote remainingDuration result = result ++ pieces
    /\ Forall (fun p => (0 < currentDuration p /\ currentDuration p <= 4)%Q) pieces
    /\ ((0 < remainingDuration)%Q ->
        (Qsum (map currentDuration pieces) == remainingDuration)%Q /\ pieces <> [])
    /\ ((remainingDuration <= 0)%Q -> pieces = [])
    /\ ((0 < remainingDuration)%Q -> (remainingDuration <= 4)%Q -> List.length pieces = 1%nat)
    /\ (forall i p, nth_error pieces i = Some p ->
          tied (pushed p) = (0 <? List.length result + i)%nat
          /\ keys (pushed p) = [baseNote]
          /\ vfDuration (pushed p) = getDuration (currentDuration p)).
Proof.
  funelim (splitLoop baseNote remainingDuration result).
  - destruct H as [rest [Hcall [Hbound [Hsum [Hnil [_ Hnotes]]]]]].
    assert (Hm_pos : (0 < Qmin remainingDuration 4)%Q)
      by (apply Q.min_glb_lt; [exact Hpos | reflexivity]).
    assert (Hm_le4 : (Qmin remainingDuration 4 <= 4)%Q) by apply Q.le_min_r.
    assert (Hm_ler : (Qmin remainingDuration 4 <= remainingDuration)%Q) by apply Q.le_min_l.
    assert (Hm_small : (remainingDuration <= 4 -> Qmin remainingDuration 4 == remainingDuration)%Q)
      by apply Q.min_l.
    eexists (_ :: rest). split; [rewrite Hcall, <- app_assoc; reflexivity |].
    split; [constructor; [cbn; split; assumption | exact Hbound] |].
    split; [| split; [| split]].
    + intros _. split; [| discriminate]. cbn.
      destruct (Qlt_le_dec 0 (remainingDuration - Qmin remainingDuration 4)) as [Hmore | Hdone].
      * destruct (Hsum Hmore) as [Hrest _].
        change (fold_right Qplus 0%Q (map currentDuration rest))
          with (Qsum (map currentDuration rest)).
        rewrite Hrest. ring.
      * rewrite (Hnil Hdone). cbn. lra.
    + intros Hle. lra.
    + intros _ Hle. specialize (Hm_small Hle).
      rewrite Hnil; [reflexivity | lra].
    + intros [| i] p Hp; cbn in Hp.
      * inversion Hp; subst p. cbn. rewrite Nat.add_0_r. auto.
      * destruct (Hnotes i p Hp) as [Htied Hrest]. split; [| exact Hrest].
        rewrite Htied, length_app. cbn.
        destruct (List.length result + 1 + i)%nat eqn:E1; [lia |].
        destruct (List.length result + S i)%nat eqn:E2; [lia | reflexivity].
  - exists []. rewrite app_nil_r. split; [reflexivity |]. split; [constructor |].
    split; [intros Hpos; lra |]. split; [reflexivity |].
    split; [intros Hpos; lra |]. intros [| i] p Hp; discriminate.
Qed.

(** The symbol drawn for a piece is looked up from its duration and can
    stand for less: three beats are drawn as one half note, a quarter of a
    beat as an eighth. *)
Example staff_symbols :
  map vfDuration (splitNote "c/4" 3) = ["h"%string]
  /\ map vfDuration (splitNote "c/4" (1 # 4)) = ["8"%string]
  /\ map vfDuration (splitNote "c/4" 9) = ["w"; "w"; "q"]%string
  /\ splitNote "c/4" 0 = [].
Proof. repeat split; reflexivity. Qed.

(** ** Pythagorean chords *)

(** C9.  The frequency the generator computes for the Perfect Fifth,
    [261.63 * (3 / 2)] in binary64 arithmetic, is the binary64 number nearest
    to 392.445, and it is the value handed to the frequency-to-note
    conversion for the second chord. *)
Theorem perfect_fifth_frequency :
  nth_error pythagoreanRatios 1 = Some ("Perfect Fifth"%string, (3 / 2)%float)
  /\ intervalFrequency (3 / 2) = 392.445%float
  /\ PrimFloat.leb (abs (intervalFrequency (3 / 2) - 392.445)) 0x1p-44%float = true
  /\ forall (now : nat -> Z) (toNote : float -> string),
       nth_error (map note (notes (addPythagoreanChords now toNote initialState))) 1
       = Some (Some (toNote 392.445%float)).
Proof.
  split; [reflexivity |]. split; [reflexivity |]. split; [reflexivity |].
  intros now toNote. reflexivity.
Qed.

(** * Further properties of the code *)

(** ** Drawing and hit testing *)

Lemma cellIndex_le (k : Z) (p : Q) : k <= cellIndex p <-> (inject_Z (k * 25) <= p)%Q.
Proof.
  destruct (cellIndex_floor p) as [Hlo Hhi].
  rewrite inject_Z_mult. change (inject_Z 25) with 25%Q.
  split.
  - intros Hk. rewrite Zle_Qle in Hk.
    generalize dependent (inject_Z (cellIndex p)). generalize (inject_Z k). intros; lra.
  - intros Hk. assert (Hlt : k < cellIndex p + 1); [| lia].
    rewrite Zlt_Qlt, inject_Z_plus. change (inject_Z 1) with 1%Q.
    generalize dependent (inject_Z (cellIndex p)). generalize dependent (inject_Z k).
    intros; lra.
Qed.

Lemma cellIndex_lt (k : Z) (p : Q) : cellIndex p < k <-> (p < inject_Z (k * 25))%Q.
Proof.
  pose proof (cellIndex_le k p) as H. split.
  - intros Hlt. apply Qnot_le_lt. intros Hle. apply H in Hle. lia.
  - intros Hlt. apply Z.nle_gt. intros Hle. apply H in Hle.
    exact (Qlt_not_le _ _ Hlt Hle).
Qed.

(** X1.  What is drawn is what is hit: for a note of non-negative duration, a
    pointer is on the rectangle [drawNote] fills for it exactly when the cell
    under the pointer satisfies the test [handleCanvasClick] and
    [handleMouseDown] search the store with. *)
Theorem drawn_rect_is_hit_area (px py : Q) (n : Note) :
  0 <= duration n ->
  nth_error (drawNote n) 1
  = Some (let '(x, y, w, h) := noteRect n in FillRect x y w h)
  /\ (insideRect px py (noteRect n) <-> covers (cellIndex py) (cellIndex px) n = true).
Proof.
  intros Hdur. split; [reflexivity |].
  rewrite covers_spec. unfold insideRect, noteRect, NOTE_WIDTH, NOTE_HEIGHT, CELL_SIZE.
  replace (colIndex n * 25 + 25 * duration n) with ((colIndex n + duration n) * 25) by lia.
  replace (rowIndex n * 25 + 25) with ((rowIndex n + 1) * 25) by lia.
  rewrite <- !cellIndex_le, <- !cellIndex_lt. lia.
Qed.

Lemma drawn_rect_is_hit_area_witness :
  insideRect 99 10 (noteRect (mkNote "note-0" (Some "C2"%string) 3 1 0 3 true))
  <-> covers (cellIndex 10) (cellIndex 99) (mkNote "note-0" (Some "C2"%string) 3 1 0 3 true) = true.
Proof.
  apply (drawn_rect_is_hit_area 99 10 (mkNote "note-0" (Some "C2"%string) 3 1 0 3 true)).
  cbn. lia.
Defined.

Lemma isResizeHandle_spec (x : Q) (c : Note) :
  isResizeHandle x c = true
  <-> (inject_Z (colIndex c * NOTE_WIDTH + NOTE_WIDTH * duration c - 5) < x)%Q.
Proof.
  unfold isResizeHandle, NOTE_WIDTH, CELL_SIZE.
  rewrite negb_true_iff, <- not_true_iff_false, Qle_bool_iff.
  replace (colIndex c * 25 + 25 * duration c - 5)
    with (colIndex c * 25 + (duration c * 25 - 5)) by lia.
  rewrite inject_Z_plus.
  generalize (inject_Z (colIndex c * 25)) (inject_Z (duration c * 25 - 5)). intros a b.
  split.
  - intros H. apply Qnot_le_lt in H. lra.
  - intros H Hle. lra.
Qed.

(** X2.  A pointer-down on a note (the first one the store holds under the
    pointer's cell) selects it and touches neither the notes nor the column
    count.  It starts a resize when the pointer is right of the left edge of
    the handle square [drawNote] paints, at any height within the row, and a
    drag otherwise; the other mode's flag is left as it was. *)
Theorem pointer_down_mode (x y : Q) (s : State) (c : Note) :
  find (covers (cellIndex y) (cellIndex x)) (notes s) = Some c ->
  let s' := handleMouseDown x y s in
  let '(hx, _, _, _) := handleRect c in
  selectedNote s' = Some c /\ notes s' = notes s /\ numberOfColumns s' = numberOfColumns s
  /\ ((inject_Z hx < x)%Q -> isResizing s' = true /\ isDragging s' = isDragging s)
  /\ ((x <= inject_Z hx)%Q -> isDragging s' = true /\ isResizing s' = isResizing s).
Proof.
  intros Hfind. unfold handleMouseDown. rewrite Hfind.
  unfold handleRect, noteRect.
  pose proof (isResizeHandle_spec x c) as Hspec.
  destruct (isResizeHandle x c); cbn.
  - split; [reflexivity |]. split; [reflexivity |]. split; [reflexivity |]. split.
    + intros _. split; reflexivity.
    + intros Hle. exfalso. apply (Qlt_not_le _ _ (proj1 Hspec eq_refl)). exact Hle.
  - split; [reflexivity |]. split; [reflexivity |]. split; [reflexivity |]. split.
    + intros Hlt. apply Hspec in Hlt. discriminate.
    + intros _. split; reflexivity.
Qed.

(** On a one-column note at column 3, x = 96 is on the handle, x = 95 is not. *)
Lemma pointer_down_mode_witness :
  let s := handleCanvasClick 0 80 10 initialState in
  isResizing (handleMouseDown 96 20 s) = true /\ isDragging (handleMouseDown 95 20 s) = true.
Proof.
  intros s.
  pose proof (pointer_down_mode 96 20 s (clickedCellNote 0 80 10 initialState) eq_refl) as Hr.
  pose proof (pointer_down_mode 95 20 s (clickedCellNote 0 80 10 initialState) eq_refl) as Hd.
  cbv zeta in Hr, Hd. cbn [handleRect noteRect clickedCellNote colIndex rowIndex duration] in Hr, Hd.
  destruct Hr as [_ [_ [_ [Hr _]]]]. destruct Hd as [_ [_ [_ [_ Hd]]]].
  split; [apply Hr | apply Hd]; vm_compute; congruence.
Defined.

(** ** Pointer gestures *)


(** X4.  No pointer move changes the number or order of the notes, nor any
    note's id, [start] or [selected] flag; a drag changes no duration either.
    As playback is scheduled from [start] and [duration], a drag leaves the
    times at which the notes sound as they were. *)
Theorem pointer_move_keeps_start (x y : Q) (s : State) :
  let s' := handleMouseMove x y s in
  map (fun n => (id n, start n, selected n)) (notes s')
  = map (fun n => (id n, start n, selected n)) (notes s)
  /\ (isDragging s = true ->
      map (fun n => (inject_Z (duration n) * (1 # 4), inject_Z (start n) * (1 # 4))%Q) (notes s')
      = map (fun n => (inject_Z (duration n) * (1 # 4), inject_Z (start n) * (1 # 4))%Q) (notes s)).
Proof.
  unfold handleMouseMove. split.
  - break_match; cbn; try reflexivity;
      rewrite map_map; apply map_ext; intros m;
      destruct (String.eqb (id m) (id _)); reflexivity.
  - intros Hdrag. rewrite Hdrag. cbn.
    destruct (selectedNote s) as [sel |]; [| reflexivity].
    cbn. rewrite map_map. apply map_ext. intros m.
    destruct (String.eqb (id m) (id sel)); reflexivity.
Qed.

(** ** Selection *)

Lemma coherent_none_selected (l : list Note) :
  Forall (fun n => selected n = false) l -> selection_coherent l.
Proof.
  intros Hall n m Hn _ Hsel. rewrite Forall_forall in Hall.
  rewrite (Hall n Hn) in Hsel. discriminate.
Qed.

Lemma coherent_app_unselected (l extra : list Note) :
  selection_coherent l -> Forall (fun n => selected n = false) extra ->
  selection_coherent (l ++ extra).
Proof.
  intros Hl Hextra n m Hn Hm Hsn Hsm. rewrite Forall_forall in Hextra.
  apply in_app_or in Hn. apply in_app_or in Hm.
  destruct Hn as [Hn | Hn]; [| rewrite (Hextra n Hn) in Hsn; discriminate].
  destruct Hm as [Hm | Hm]; [| rewrite (Hextra m Hm) in Hsm; discriminate].
  apply Hl; assumption.
Qed.

Lemma coherent_map (f : Note -> Note) (l : list Note) :
  (forall n, id (f n) = id n /\ selected (f n) = selected n) ->
  selection_coherent l -> selection_coherent (map f l).
Proof.
  intros Hf Hl n m Hn Hm Hsn Hsm.
  apply in_map_iff in Hn. destruct Hn as [n0 [<- Hn0]].
  apply in_map_iff in Hm. destruct Hm as [m0 [<- Hm0]].
  destruct (Hf n0) as [Hidn Hseln]. destruct (Hf m0) as [Hidm Hselm].
  rewrite Hidn, Hidm. apply Hl; congruence.
Qed.

Lemma importTracks_unselected (table : list string) (tracks : Midi.File) :
  Forall (fun n => selected n = false) (fst (importTracks table tracks)).
Proof.
  unfold importTracks.
  assert (Hnil : Forall (fun n => selected n = false) (fst (@nil Note, 0))) by constructor.
  revert Hnil. generalize (@nil Note, 0).
  induction tracks as [| track tracks IH]; intros acc Hacc; cbn; [exact Hacc |].
  apply IH. revert acc Hacc.
  induction track as [| [midiNote [now rnd]] track IHt]; intros [newNotes maxColumn] Hacc;
    cbn; [exact Hacc |].
  apply IHt. destruct (negb _); cbn; [| exact Hacc].
  apply Forall_app. split; [exact Hacc | repeat constructor].
Qed.

Lemma handle_selection (e : Event) (s : State) :
  selection_coherent (notes s) -> selection_coherent (notes (handle e s)).
Proof.
  intros Hs.
  destruct e; try (unfold_handlers; break_match; cbn; exact Hs).
  - (* CanvasClick *)
    unfold handle, handleCanvasClick, playNote.
    destruct (find _ (notes s)) as [c |] eqn:Hfind.
    + cbn. intros n m Hn Hm Hsn Hsm.
      apply in_map_iff in Hn. destruct Hn as [n0 [<- _]].
      apply in_map_iff in Hm. destruct Hm as [m0 [<- _]].
      cbn in *. apply String.eqb_eq in Hsn, Hsm. congruence.
    + destruct (negb (isDragging s) && negb (isResizing s)); [| exact Hs].
      assert (Hnew : forall newNote,
                 selection_coherent (map (with_selected false) (notes s) ++ [newNote])).
      { intros newNote n m Hn Hm Hsn Hsm.
        apply in_app_or in Hn. apply in_app_or in Hm.
        destruct Hn as [Hn | [<- | []]].
        { apply in_map_iff in Hn. destruct Hn as [n0 [<- _]]. discriminate. }
        destruct Hm as [Hm | [<- | []]]; [| reflexivity].
        apply in_map_iff in Hm. destruct Hm as [m0 [<- _]]. discriminate. }
      break_match; cbn; apply Hnew.
  - (* MouseMove *)
    unfold handle, handleMouseMove. break_match; cbn; try exact Hs;
      (apply coherent_map; [| exact Hs]); intros moved;
      destruct (String.eqb (id moved) (id _)); split; reflexivity.
  - (* ClearAllNotes *)
    intros n m [].
  - (* AddRandomNote *)
    unfold handle, addRandomNote. cbn.
    apply coherent_app_unselected; [exact Hs | repeat constructor].
  - (* MidiUpload *)
    unfold handle, handleMidiUpload, resumeMidiUpload.
    destruct file as [[error | tracks] |]; cbn; try exact Hs.
    pose proof (importTracks_unselected (allNotes s) tracks) as Himp.
    destruct (importTracks (allNotes s) tracks) as [newNotes maxColumn]. cbn.
    apply coherent_none_selected, Himp.
  - (* AddPythagoreanChords *)
    unfold handle, addPythagoreanChords. cbn.
    apply coherent_app_unselected; [exact Hs | repeat constructor].
Qed.

(** X5.  In every state the component can reach, the notes flagged as
    selected all carry the same id: whatever the operations and renders, two
    notes with different ids are never shown selected together. *)
Theorem selected_share_id (s : State) (n m : Note) :
  reachable s ->
  In n (notes s) -> In m (notes s) -> selected n = true -> selected m = true ->
  id n = id m.
Proof.
  intros Hreach. revert n m. change (selection_coherent (notes s)).
  assert (Hruns : forall a b, steps a b ->
            selection_coherent (notes a) -> selection_coherent (notes b)).
  { induction 1 as [a | a b c _ IH Hstep | a b c file _ IHb _ IHc]; intros Ha.
    - exact Ha.
    - specialize (IH Ha). inversion Hstep; subst.
      + apply handle_selection, IH.
      + exact IH.
    - specialize (IHc (IHb Ha)).
      unfold resumeMidiUpload. destruct file as [[error | tracks] |]; cbn; try exact IHc.
      pose proof (importTracks_unselected (allNotes c) tracks) as Himp.
      destruct (importTracks (allNotes c) tracks) as [newNotes maxColumn]. cbn.
      apply coherent_none_selected, Himp. }
  apply (Hruns _ _ Hreach). intros n m [].
Qed.

(** Two clicks on different cells: only the second note is selected. *)
Lemma selected_share_id_witness :
  let s := handleCanvasClick 1 40 40 (handleCanvasClick 0 10 10 initialState) in
  map selected (notes s) = [false; true]
  /\ forall n m, In n (notes s) -> In m (notes s) ->
                 selected n = true -> selected m = true -> id n = id m.
Proof.
  intros s. split; [reflexivity |].
  intros n m. apply (selected_share_id s n m).
  eapply steps_next; [eapply steps_next; [apply steps_refl |] |].
  - exact (step_handle (CanvasClick 0 10 10) _).
  - exact (step_handle (CanvasClick 1 40 40) _).
Defined.

(** ** Durations, again *)

(** X6.  Every operation keeps every note's duration at 1 or more, provided
    the readings of [Math.random()] are not negative and, for an import, that
    every decoded note has a positive length. *)
Theorem durations_kept (e : Event) (s : State) :
  keeps_durations e ->
  Forall (fun n => 1 <= duration n) (notes s) ->
  Forall (fun n => 1 <= duration n) (notes (handle e s)).
Proof. exact (handle_durations e s). Qed.

(** A resize with the pointer far to the left of the note. *)
Lemma durations_kept_witness :
  let s := handleMouseDown 99 10 (handleCanvasClick 0 80 10 initialState) in
  Forall (fun n => 1 <= duration n) (notes (handle (MouseMove 5 10) s)).
Proof.
  intros s. apply (durations_kept (MouseMove 5 10) s).
  - exact I.
  - repeat constructor. cbn. lia.
Defined.

(** ** More on MIDI import *)

(** Whether the import keeps a decoded note, and the fields it gives it. *)
Lemma importTracks_filter (table : list string) (tracks : Midi.File) :
  map (fun n => (note n, start n, colIndex n, duration n, rowIndex n, selected n))
      (fst (importTracks table tracks))
  = map (fun entry : Midi.Note * Midi.Stamp =>
           (Some (Midi.name (fst entry)),
            Qfloor (Midi.time (fst entry) * 4), Qfloor (Midi.time (fst entry) * 4),
            Qceiling (Midi.duration (fst entry) * 4),
            indexOf table (Midi.name (fst entry)), false))
        (filter (fun entry : Midi.Note * Midi.Stamp =>
                   negb (indexOf table (Midi.name (fst entry)) =? -1))
                (List.concat tracks)).
Proof.
  unfold importTracks.
  set (view := fun n => (note n, start n, colIndex n, duration n, rowIndex n, selected n)).
  set (keep := fun entry : Midi.Note * Midi.Stamp =>
                 negb (indexOf table (Midi.name (fst entry)) =? -1)).
  set (made := fun entry : Midi.Note * Midi.Stamp =>
                 (Some (Midi.name (fst entry)),
                  Qfloor (Midi.time (fst entry) * 4), Qfloor (Midi.time (fst entry) * 4),
                  Qceiling (Midi.duration (fst entry) * 4),
                  indexOf table (Midi.name (fst entry)), false)).
  assert (Htrack : forall track acc,
             map view (fst (fold_left (importNote table) track acc))
             = map view (fst acc) ++ map made (filter keep track)).
  { induction track as [| [midiNote [now rnd]] track IH]; intros [newNotes maxColumn]; cbn.
    - rewrite app_nil_r. reflexivity.
    - rewrite IH. subst keep. cbn.
      destruct (negb (indexOf table (Midi.name midiNote) =? -1)); cbn; [| reflexivity].
      rewrite map_app, <- app_assoc. reflexivity. }
  assert (Hall : forall acc,
             map view (fst (fold_left (fun acc track => fold_left (importNote table) track acc)
                                      tracks acc))
             = map view (fst acc) ++ map made (filter keep (List.concat tracks))).
  { induction tracks as [| track tracks IH]; intros acc; cbn.
    - rewrite app_nil_r. reflexivity.
    - rewrite IH, Htrack, filter_app, map_app, app_assoc. reflexivity. }
  rewrite Hall. reflexivity.
Qed.

(** X7.  An import replaces the store by the decoded notes whose name is in
    the table, in the order of the tracks and of the notes within each track,
    whatever the store held: each gets the decoded name, the column
    [floor (4 * time)] as [start] and [colIndex], the duration
    [ceil (4 * duration)], the row of its name, and is not selected. *)
Theorem midi_import_matching_in_order (tracks : Midi.File) (s : State) :
  map (fun n => (note n, start n, colIndex n, duration n, rowIndex n, selected n))
      (notes (handleMidiUpload (Some (inr tracks)) s))
  = map (fun entry : Midi.Note * Midi.Stamp =>
           (Some (Midi.name (fst entry)),
            Qfloor (Midi.time (fst entry) * 4), Qfloor (Midi.time (fst entry) * 4),
            Qceiling (Midi.duration (fst entry) * 4),
            indexOf (allNotes s) (Midi.name (fst entry)), false))
        (filter (fun entry : Midi.Note * Midi.Stamp =>
                   negb (indexOf (allNotes s) (Midi.name (fst entry)) =? -1))
                (List.concat tracks)).
Proof.
  unfold handleMidiUpload, resumeMidiUpload.
  pose proof (importTracks_filter (allNotes s) tracks) as H.
  destruct (importTracks (allNotes s) tracks) as [newNotes maxColumn]. exact H.
Qed.



(** ** The pitch table *)

(** X9.  In every reachable state the table has no repeated name: looking up
    the row of the name found at a row gives that row back, so a name written
    by a click or a drag and read back by an import (under the same render)
    lands on the same row. *)
Theorem table_row_round_trip (s : State) (i : Z) (x : string) :
  reachable s ->
  at_index (allNotes s) i = Some x -> indexOf (allNotes s) x = i.
Proof.
  intros Hreach Hat.
  assert (Hboth : forall table, table = allNotes_initial \/ table = rev allNotes_initial ->
            forallb (fun k => match at_index table (Z.of_nat k) with
                              | Some y => indexOf table y =? Z.of_nat k
                              | None => false
                              end) (seq 0 84) = true)
    by (intros table [-> | ->]; vm_compute; reflexivity).
  pose proof (reachable_table_ok s Hreach) as Htable.
  specialize (Hboth (allNotes s) Htable). rewrite forallb_forall in Hboth.
  assert (Hrange : 0 <= i < 84).
  { unfold at_index in Hat. destruct (i <? 0) eqn:E; [discriminate |].
    apply Z.ltb_ge in E. split; [exact E |].
    assert (Hlen : (Z.to_nat i < List.length (allNotes s))%nat)
      by (apply nth_error_Some; congruence).
    assert (Hl : List.length (allNotes s) = 84%nat)
      by (destruct Htable as [-> | ->]; reflexivity).
    lia. }
  specialize (Hboth (Z.to_nat i)). rewrite Z2Nat.id in Hboth by lia.
  rewrite Hat in Hboth. apply Z.eqb_eq, Hboth, in_seq. lia.
Qed.

Lemma table_row_round_trip_witness :
  indexOf (allNotes (renderPiano initialState)) "B8" = 0.
Proof.
  apply (table_row_round_trip (renderPiano initialState) 0 "B8").
  - eapply steps_next; [apply steps_refl | apply step_render].
  - reflexivity.
Defined.

(** ** More on the staff view *)

Lemma Qceiling_spec (q : Q) :
  (inject_Z (Qceiling q) - 1 < q /\ q <= inject_Z (Qceiling q))%Q.
Proof.
  split; [| apply Qle_ceiling].
  pose proof (Qceiling_lt q) as Hc.
  unfold Z.sub in Hc. rewrite inject_Z_plus in Hc.
  change (inject_Z (- (1))) with (- (1))%Q in Hc. exact Hc.
Qed.

Lemma Qceiling_unique (q : Q) (z : Z) :
  (inject_Z z - 1 < q)%Q -> (q <= inject_Z z)%Q -> Qceiling q = z.
Proof.
  intros Hlo Hhi. destruct (Qceiling_spec q) as [Hc1 Hc2].
  assert (H1 : Qceiling q < z + 1).
  { rewrite Zlt_Qlt, inject_Z_plus. change (inject_Z 1) with 1%Q.
    generalize dependent (inject_Z (Qceiling q)). generalize dependent (inject_Z z).
    intros; lra. }
  assert (H2 : z < Qceiling q + 1).
  { rewrite Zlt_Qlt, inject_Z_plus. change (inject_Z 1) with 1%Q.
    generalize dependent (inject_Z (Qceiling q)). generalize dependent (inject_Z z).
    intros; lra. }
  lia.
Qed.

Lemma splitLoop_count (baseNote : string) (remainingDuration : Q) (result : list Piece) :
  exists pieces,
    splitLoop baseNote remainingDuration result = result ++ pieces
    /\ List.length pieces = Z.to_nat (Qceiling (remainingDuration / 4))
    /\ (forall i p, nth_error pieces i = Some p -> (S i < List.length pieces)%nat ->
          (currentDuration p == 4)%Q /\ vfDuration (pushed p) = "w"%string).
Proof.
  funelim (splitLoop baseNote remainingDuration result).
  - destruct H as [rest [Hcall [Hlen Hwhole]]].
    eexists (_ :: rest). split; [rewrite Hcall, <- app_assoc; reflexivity |].
    destruct (Qceiling_spec ((remainingDuration - Qmin remainingDuration 4) / 4))
      as [Hc1 Hc2].
    destruct (Qlt_le_dec 4 remainingDuration) as [Hbig | Hsmall].
    + assert (Hmin : (Qmin remainingDuration 4 == 4)%Q)
        by (apply Q.min_r, Qlt_le_weak, Hbig).
      assert (Hceil : Qceiling (remainingDuration / 4)
                      = Qceiling ((remainingDuration - Qmin remainingDuration 4) / 4) + 1).
      { apply Qceiling_unique; rewrite inject_Z_plus; change (inject_Z 1) with 1%Q;
          generalize dependent (inject_Z (Qceiling ((remainingDuration
                                                     - Qmin remainingDuration 4) / 4)));
          intros; unfold Qdiv in *; change (/ 4)%Q with (1 # 4)%Q in *; lra. }
      assert (Hnonneg : 0 <= Qceiling ((remainingDuration - Qmin remainingDuration 4) / 4)).
      { assert (Hq : (0 < (remainingDuration - Qmin remainingDuration 4) / 4)%Q)
          by (unfold Qdiv; change (/ 4)%Q with (1 # 4)%Q; lra).
        pose proof (Qceiling_pos _ Hq). lia. }
      split; [cbn [List.length]; rewrite Hlen, Hceil; lia |].
      intros [| i] p Hp Hi; cbn in Hp.
      * inversion Hp; subst p. cbn. split; [exact Hmin |].
        unfold getDuration.
        replace (Qle_bool 4 (Qmin remainingDuration 4)) with true; [reflexivity |].
        symmetry. apply Qle_bool_iff. rewrite Hmin. apply Qle_refl.
      * apply (Hwhole i p Hp). cbn [List.length] in Hi. lia.
    + assert (Hmin : (Qmin remainingDuration 4 == remainingDuration)%Q)
        by (apply Q.min_l, Hsmall).
      assert (Hzero : Qceiling ((remainingDuration - Qmin remainingDuration 4) / 4) = 0)
        by (apply Qceiling_unique; change (inject_Z 0) with 0%Q;
            unfold Qdiv; change (/ 4)%Q with (1 # 4)%Q; lra).
      assert (Hone : Qceiling (remainingDuration / 4) = 1)
        by (apply Qceiling_unique; change (inject_Z 1) with 1%Q;
            unfold Qdiv; change (/ 4)%Q with (1 # 4)%Q; lra).
      rewrite Hzero in Hlen. destruct rest; [| discriminate].
      split; [rewrite Hone; reflexivity |].
      intros [| i] p Hp Hi; cbn in Hi; lia.
  - exists []. rewrite app_nil_r. split; [reflexivity |].
    split; [| intros [| i] p Hp; discriminate].
    destruct (Qceiling_spec (remainingDuration / 4)) as [Hc1 _].
    assert (Hlt : Qceiling (remainingDuration / 4) < 1).
    { rewrite Zlt_Qlt. change (inject_Z 1) with 1%Q.
      generalize dependent (inject_Z (Qceiling (remainingDuration / 4))).
      intros; unfold Qdiv in *; change (/ 4)%Q with (1 # 4)%Q in *; lra. }
    cbn [List.length]. lia.
Qed.

Lemma splitNote_length (baseNote : string) (d : Q) :
  List.length (splitNote baseNote d) = Z.to_nat (Qceiling (d / 4)).
Proof.
  destruct (splitLoop_count baseNote d []) as [pieces [Hcall [Hlen _]]].
  cbn [app] in Hcall. unfold splitNote. rewrite Hcall, length_map. exact Hlen.
Qed.

(** X10.  A note of [d] beats is drawn as [ceil (d / 4)] staff notes (none
    when [d <= 0]); every one but the last stands for 4 beats and is a whole
    note. *)
Theorem splitNote_count (baseNote : string) (d : Q) :
  List.length (splitNote baseNote d) = Z.to_nat (Qceiling (d / 4))
  /\ forall i n, nth_error (splitNote baseNote d) i = Some n ->
       (S i < List.length (splitNote baseNote d))%nat -> vfDuration n = "w"%string.
Proof.
  destruct (splitLoop_count baseNote d []) as [pieces [Hcall [Hlen Hwhole]]].
  cbn [app] in Hcall. unfold splitNote. rewrite Hcall, length_map.
  split; [exact Hlen |].
  intros i n Hn Hi. rewrite nth_error_map in Hn.
  destruct (nth_error pieces i) as [p |] eqn:Hp; [| discriminate].
  inversion Hn; subst n. exact (proj2 (Hwhole i p Hp Hi)).
Qed.

Lemma leadingDigits_all (octave : string) :
  allChars isDigit octave = true -> leadingDigits octave = octave.
Proof.
  induction octave as [| c rest IH]; cbn; [reflexivity |].
  intros H. apply andb_true_iff in H. destruct H as [Hc Hrest].
  rewrite Hc, (IH Hrest). reflexivity.
Qed.

(** X11.  The staff key of a name made of a digit-free part followed by a
    non-empty run of digits is the first part in lower case, a slash, and the
    digits: the digits are not dropped or split, however many there are. *)
Theorem baseNoteOf_split (noteName octave : string) :
  allChars (fun c => negb (isDigit c)) noteName = true ->
  allChars isDigit octave = true -> octave <> EmptyString ->
  baseNoteOf (noteName ++ octave) = (toLowerCase noteName ++ "/" ++ octave)%string.
Proof.
  intros Hname Hoct Hne. unfold baseNoteOf.
  assert (Hsplit : splitAtDigits (noteName ++ octave) = (noteName, octave)).
  { induction noteName as [| c rest IH]; cbn.
    - destruct octave as [| d more]; [contradiction |]. cbn in Hoct.
      apply andb_true_iff in Hoct. destruct Hoct as [Hd _]. cbn. rewrite Hd. reflexivity.
    - cbn in Hname. apply andb_true_iff in Hname. destruct Hname as [Hc Hrest].
      apply negb_true_iff in Hc. rewrite Hc, (IH Hrest). reflexivity. }
  rewrite Hsplit. destruct octave as [| d more]; [contradiction |].
  rewrite (leadingDigits_all _ Hoct). reflexivity.
Qed.

Lemma baseNoteOf_split_witness : baseNoteOf "A#10" = "a#/10"%string.
Proof. apply (baseNoteOf_split "A#" "10"); [reflexivity | reflexivity | discriminate]. Defined.


(** ** Random notes and chords *)

Lemma Qfloor_scaled (r : Q) (k : Z) :
  (0 <= r)%Q -> (r < 1)%Q -> 0 < k -> 0 <= Qfloor (r * inject_Z k) < k.
Proof.
  intros Hlo Hhi Hk.
  assert (Hkq : (0 < inject_Z k)%Q) by (rewrite Zlt_Qlt in Hk; exact Hk).
  split.
  - apply Qfloor_nonneg, Qmult_le_0_compat; [exact Hlo | apply Qlt_le_weak, Hkq].
  - rewrite Zlt_Qlt. eapply Qle_lt_trans; [apply Qfloor_le |].
    setoid_replace (inject_Z k) with (1 * inject_Z k)%Q at 2 by ring.
    apply Qmult_lt_compat_r; assumption.
Qed.

Lemma at_index_in_range {A} (arr : list A) (i : Z) :
  0 <= i < Z.of_nat (List.length arr) -> exists a, at_index arr i = Some a.
Proof.
  intros Hi. unfold at_index.
  destruct (i <? 0) eqn:E; [lia |].
  destruct (nth_error arr (Z.to_nat i)) as [a |] eqn:Hn; [eauto |].
  apply nth_error_None in Hn. lia.
Qed.

Lemma table_ok_length (s : State) : table_ok s -> List.length (allNotes s) = 84%nat.
Proof. intros [-> | ->]; reflexivity. Qed.

(** X13.  With readings of [Math.random()] in [[0, 1)], in a reachable
    state, random-note add appends one unselected note that starts on the
    grid, on a row of the table and named after it, with a duration from 1
    to 4; it changes nothing else, so the note's end may pass the last column
    by up to 3 without the grid growing. *)
Theorem random_note_on_grid (now : Z) (r1 r2 r3 : Q) (s : State) :
  reachable s ->
  (0 <= r1 /\ r1 < 1)%Q -> (0 <= r2 /\ r2 < 1)%Q -> (0 <= r3 /\ r3 < 1)%Q ->
  let s' := addRandomNote now r1 r2 r3 s in
  exists n name,
    notes s' = notes s ++ [n]
    /\ numberOfColumns s' = numberOfColumns s /\ selectedNote s' = selectedNote s
    /\ 0 <= rowIndex n < 84 /\ note n = Some name
    /\ at_index (allNotes s) (rowIndex n) = Some name
    /\ 0 <= colIndex n < numberOfColumns s /\ start n = colIndex n
    /\ 1 <= duration n <= 4 /\ selected n = false
    /\ colIndex n + duration n <= numberOfColumns s + 3.
Proof.
  intros Hreach [H1lo H1hi] [H2lo H2hi] [H3lo H3hi] s'. subst s'.
  pose proof (table_ok_length s (reachable_table_ok s Hreach)) as Hlen.
  pose proof (reachable_columns s Hreach) as Hcols.
  unfold addRandomNote. rewrite Hlen.
  pose proof (Qfloor_scaled r1 (Z.of_nat 84) H1lo H1hi ltac:(lia)) as Hrow.
  pose proof (Qfloor_scaled r2 (numberOfColumns s) H2lo H2hi ltac:(lia)) as Hcol.
  pose proof (Qfloor_scaled r3 4 H3lo H3hi ltac:(lia)) as Hdur.
  change (inject_Z 4) with 4%Q in Hdur.
  destruct (at_index_in_range (allNotes s) (Qfloor (r1 * inject_Z (Z.of_nat 84))))
    as [name Hname]; [rewrite Hlen; lia |].
  eexists. exists name. cbn [notes setNotes numberOfColumns selectedNote].
  split; [reflexivity |]. cbn [rowIndex colIndex note start duration selected].
  repeat split; try reflexivity; try exact Hname; lia.
Qed.

Lemma random_note_on_grid_witness :
  exists n name,
    notes (addRandomNote 0 (1 # 2) (99 # 100) (9 # 10) initialState) = [] ++ [n]
    /\ note n = Some name /\ colIndex n + duration n <= 64 + 3.
Proof.
  destruct (random_note_on_grid 0 (1 # 2) (99 # 100) (9 # 10) initialState)
    as [n [name [Hn [_ [_ [_ [Hname [_ [_ [_ [_ [_ Hend]]]]]]]]]]]].
  - apply steps_refl.
  - split; reflexivity || discriminate.
  - split; reflexivity || discriminate.
  - split; reflexivity || discriminate.
  - exists n, name. auto.
Defined.

(** X14.  Chord generation appends five unselected notes after the notes of
    the store, which it leaves as they are: the four intervals on columns
    0-3, 4-7, 8-11 and 12-15, named by the conversion of
    [261.63 * ratio], and the base note C4 over columns 0-15.  In a reachable
    state all five end within the grid, whose column count is unchanged. *)
Theorem chords_layout (now : nat -> Z) (toNote : float -> string) (s : State) :
  reachable s ->
  let s' := addPythagoreanChords now toNote s in
  exists chords,
    notes s' = notes s ++ chords
    /\ map (fun n => (note n, colIndex n, start n, duration n, selected n)) chords
       = [(Some (toNote (261.63 * (4 / 3))%float), 0, 0, 4, false);
          (Some (toNote (261.63 * (3 / 2))%float), 4, 4, 4, false);
          (Some (toNote (261.63 * (81 / 64))%float), 8, 8, 4, false);
          (Some (toNote (261.63 * (32 / 27))%float), 12, 12, 4, false);
          (Some "C4"%string, 0, 0, 16, false)]
    /\ Forall (fun n => rowIndex n = indexOf (allNotes s)
                                       (match note n with Some x => x | None => "" end)) chords
    /\ Forall (fun n => colIndex n + duration n <= 16 /\ 16 < numberOfColumns s') chords
    /\ numberOfColumns s' = numberOfColumns s /\ selectedNote s' = selectedNote s.
Proof.
  intros Hreach s'. pose proof (reachable_columns s Hreach) as Hcols.
  eexists. subst s'. unfold addPythagoreanChords. cbn [notes setNotes emit].
  split; [reflexivity |]. split; [reflexivity |].
  split; [repeat constructor |].
  split; [| split; reflexivity].
  repeat constructor; cbn; lia.
Qed.

Lemma chords_layout_witness :
  exists chords,
    notes (addPythagoreanChords (fun _ => 0) (fun _ => "G4"%string) initialState)
    = [] ++ chords
    /\ List.length chords = 5%nat.
Proof.
  destruct (chords_layout (fun _ => 0) (fun _ => "G4"%string) initialState (steps_refl _))
    as [chords [Hnotes [Hview _]]].
  exists chords. split; [exact Hnotes |].
  rewrite <- (length_map (fun n => (note n, colIndex n, start n, duration n, selected n))), Hview.
  reflexivity.
Defined.

(** ** Clear-all and the pointer *)

(** X15.  Clear-all empties the store but keeps the remembered selected note
    and the gesture flags.  Even so no pointer-down, pointer-move or
    pointer-up that follows brings a note back or changes the column count:
    until the next click, import or generator call the store stays empty. *)
Theorem cleared_grid_ignores_pointer (events : list Event) (s : State) :
  forallb isPointerEvent events = true ->
  let cleared := clearAllNotes s in
  selectedNote cleared = selectedNote s
  /\ (isDragging cleared, isResizing cleared) = (isDragging s, isResizing s)
  /\ notes (fold_left (fun st e => handle e st) events cleared) = []
  /\ numberOfColumns (fold_left (fun st e => handle e st) events cleared) = numberOfColumns s.
Proof.
  intros Hev cleared. split; [reflexivity |]. split; [reflexivity |].
  assert (Hgen : forall st, notes st = [] ->
            notes (fold_left (fun st e => handle e st) events st) = []
            /\ numberOfColumns (fold_left (fun st e => handle e st) events st)
               = numberOfColumns st).
  { induction events as [| e events IH]; intros st Hst; cbn [fold_left]; [auto |].
    cbn in Hev. apply andb_true_iff in Hev. destruct Hev as [He Hrest].
    assert (Hstep : notes (handle e st) = [] /\ numberOfColumns (handle e st) = numberOfColumns st).
    { destruct e; try discriminate; cbn [handle].
      - unfold handleMouseDown. rewrite Hst. cbn. auto.
      - unfold handleMouseMove. break_match; cbn; rewrite ?Hst; auto.
      - cbn. auto. }
    destruct Hstep as [Hn Hc]. destruct (IH Hrest _ Hn) as [Hn' Hc'].
    split; [exact Hn' | congruence]. }
  exact (Hgen cleared eq_refl).
Qed.

(** A drag is under way when clear-all is pressed; the pointer keeps moving. *)
Lemma cleared_grid_ignores_pointer_witness :
  let s := handleMouseDown 80 10 (handleCanvasClick 0 80 10 initialState) in
  isDragging (clearAllNotes s) = true
  /\ notes (fold_left (fun st e => handle e st)
                      [MouseMove 200 60; MouseUp; MouseDown 200 60] (clearAllNotes s)) = [].
Proof.
  intros s. split; [reflexivity |].
  destruct (cleared_grid_ignores_pointer [MouseMove 200 60; MouseUp; MouseDown 200 60] s eq_refl)
    as [_ [_ [Hnotes _]]].
  exact Hnotes.
Defined.

(** ** The keyboard strip's active notes *)

Lemma same_name_eq (a b : option string) : same_name a b = true <-> a = b.
Proof.
  destruct a as [x |], b as [y |]; cbn; try (split; congruence).
  rewrite String.eqb_eq. split; congruence.
Qed.

(** X16.  Releasing a key (or leaving it) removes every copy of its name from
    the active notes, however many presses or clicks put it there, and
    leaves every other name with all its copies. *)
Theorem key_up_removes_all (name : string) (s : State) :
  let s' := handle (KeyUp name) s in
  ~ In (Some name) (activeNotes s')
  /\ (forall other, other <> Some name ->
        filter (same_name other) (activeNotes s') = filter (same_name other) (activeNotes s))
  /\ notes s' = notes s.
Proof.
  cbn. split; [| split; [| reflexivity]].
  - intros Hin. apply filter_In in Hin. destruct Hin as [_ Hneq].
    cbn in Hneq. rewrite String.eqb_refl in Hneq. discriminate.
  - intros other Hother. induction (activeNotes s) as [| a l IH]; [reflexivity |].
    cbn [filter]. destruct (same_name a (Some name)) eqn:Ea; cbn [negb].
    + apply same_name_eq in Ea. subst a.
      destruct (same_name other (Some name)) eqn:Eo; [| exact IH].
      apply same_name_eq in Eo. contradiction.
    + cbn [filter]. destruct (same_name other a); rewrite IH; reflexivity.
Qed.

(** X17.  Only a key release ever takes a name off the active notes: every
    other operation leaves them as they were or appends to them.  The names
    the creating clicks append therefore stay until a key of that name is
    released. *)
Theorem active_notes_only_grow (e : Event) (s : State) :
  (forall name, e <> KeyUp name) ->
  exists added, activeNotes (handle e s) = activeNotes s ++ added.
Proof.
  intros Hnot.
  destruct e; try (exists []; rewrite app_nil_r; unfold_handlers; break_match; reflexivity).
  - (* KeyDown *)
    cbn. unfold playNote. destruct (synth s); cbn; [eauto |].
    exists []. rewrite app_nil_r. reflexivity.
  - (* KeyUp *)
    exfalso. exact (Hnot name eq_refl).
  - (* CanvasClick *)
    cbn. unfold handleCanvasClick, playNote. break_match; cbn; eauto;
      exists []; rewrite app_nil_r; reflexivity.
Qed.

Lemma active_notes_only_grow_witness :
  exists added,
    activeNotes (handle (CanvasClick 0 10 10) (handle Mounted initialState))
    = activeNotes (handle Mounted initialState) ++ added
    /\ added = [Some "C2"%string].
Proof.
  destruct (active_notes_only_grow (CanvasClick 0 10 10) (handle Mounted initialState))
    as [added Hadded]; [discriminate |].
  exists added. split; [exact Hadded |]. cbn in Hadded. congruence.
Defined.

(** ** Playback *)

Lemma fold_max_spec (xs : list Z) (x : Z) :
  x <= fold_left Z.max xs x
  /\ (forall y, In y xs -> y <= fold_left Z.max xs x)
  /\ In (fold_left Z.max xs x) (x :: xs).
Proof.
  revert x. induction xs as [| y xs IH]; intros x; cbn [fold_left].
  - split; [lia |]. split; [intros y [] | left; reflexivity].
  - destruct (IH (Z.max x y)) as [H1 [H2 H3]].
    split; [lia |]. split.
    + intros z [<- | Hz]; [lia | exact (H2 z Hz)].
    + destruct H3 as [H3 | H3]; [| right; right; exact H3].
      rewrite <- H3. destruct (Z.max_spec x y) as [[_ ->] | [_ ->]]; cbn; auto.
Qed.

(** X18.  Pressing play with the synthesiser present and nothing playing
    schedules exactly one trigger per note, in store order, each lasting a
    quarter of its duration and starting a quarter of its [start] after now.
    The playing flag is scheduled to drop at the end of the note that ends
    last: no scheduled note ends later.  With an empty store the drop is
    scheduled at [Math.max()], minus infinity. *)
Theorem playback_schedule (s : State) :
  synth s = true -> isPlaying s = false ->
  let s' := playRecorded s in
  isPlaying s' = true /\ notes s' = notes s
  /\ exists at_,
       trace s'
       = trace s ++ [TransportCancel; TransportStop]
           ++ map (fun n => SynthSchedule (note n) (inject_Z (duration n) * (1 # 4))
                                          (inject_Z (start n) * (1 # 4))) (notes s)
           ++ [TransportScheduleEnd at_; TransportStart]
       /\ (notes s = [] -> at_ = None)
       /\ (notes s <> [] ->
           exists m, at_ = Some (inject_Z m * (1 # 4))%Q
                     /\ (exists n, In n (notes s) /\ m = start n + duration n)
                     /\ forall n, In n (notes s) -> start n + duration n <= m).
Proof.
  intros Hsynth Hplay. unfold playRecorded. rewrite Hsynth, Hplay. cbn.
  split; [reflexivity |]. split; [reflexivity |].
  eexists. split; [reflexivity |].
  destruct (notes s) as [| first rest]; cbn.
  - split; [reflexivity | congruence].
  - split; [discriminate |]. intros _. eexists. split; [reflexivity |].
    destruct (fold_max_spec (map (fun n => start n + duration n) rest)
                            (start first + duration first)) as [H1 [H2 H3]].
    split.
    + destruct H3 as [H3 | H3].
      * exists first. split; [left; reflexivity | symmetry; exact H3].
      * apply in_map_iff in H3. destruct H3 as [n [Hn Hin]].
        exists n. split; [right; exact Hin | symmetry; exact Hn].
    + intros n [<- | Hn]; [exact H1 |].
      apply H2, in_map_iff. exists n. auto.
Qed.

Lemma playback_schedule_witness :
  let s := handleCanvasClick 0 80 10 (handle Mounted initialState) in
  isPlaying (playRecorded s) = true.
Proof.
  intros s. destruct (playback_schedule s eq_refl eq_refl) as [Hplaying _]. exact Hplaying.
Defined.

(** ** Clicks, again *)

Lemma find_map_same (p : Note -> bool) (f : Note -> Note) (l : list Note) :
  (forall n, p (f n) = p n) -> find p (map f l) = option_map f (find p l).
Proof.
  intros Hp. induction l as [| n l IH]; cbn; [reflexivity |].
  rewrite Hp. destruct (p n); [reflexivity | exact IH].
Qed.

(** X19.  Clicking again on a cell that a note holds changes nothing more:
    the store after the second click is the store after the first, and the
    same note, now flagged, is the selected one. *)
Theorem click_select_idempotent (now now' : Z) (x y : Q) (s : State) (c : Note) :
  find (covers (cellIndex y) (cellIndex x)) (notes s) = Some c ->
  let s1 := handleCanvasClick now x y s in
  let s2 := handleCanvasClick now' x y s1 in
  notes s2 = notes s1
  /\ selectedNote s1 = Some c /\ selectedNote s2 = Some (with_selected true c)
  /\ numberOfColumns s2 = numberOfColumns s.
Proof.
  intros Hfind s1 s2.
  destruct (click_selects now x y s c Hfind) as [Hn1 [Hsel1 Hc1]].
  assert (Hfind1 : find (covers (cellIndex y) (cellIndex x)) (notes s1)
                   = Some (with_selected true c)).
  { subst s1. rewrite Hn1, find_map_same by reflexivity. rewrite Hfind. cbn.
    rewrite String.eqb_refl. reflexivity. }
  destruct (click_selects now' x y s1 _ Hfind1) as [Hn2 [Hsel2 Hc2]].
  subst s2. rewrite Hn2, Hsel2, Hc2. subst s1. rewrite Hn1, Hsel1, Hc1.
  split; [| auto]. rewrite map_map. apply map_ext. intros n. reflexivity.
Qed.

Lemma click_select_idempotent_witness :
  let s := handleCanvasClick 0 80 10 initialState in
  notes (handleCanvasClick 2 80 10 (handleCanvasClick 1 80 10 s))
  = notes (handleCanvasClick 1 80 10 s).
Proof.
  intros s.
  destruct (click_select_idempotent 1 2 80 10 s (clickedCellNote 0 80 10 initialState) eq_refl)
    as [Hnotes _].
  exact Hnotes.
Defined.

(** X20.  A click that creates a note is found by the next click on the same
    point: that click selects the new note and adds nothing, whatever the
    clock reads, and leaves the column count as the first click set it. *)
Theorem click_twice_creates_once (now now' : Z) (x y : Q) (s : State) :
  find (covers (cellIndex y) (cellIndex x)) (notes s) = None ->
  isDragging s = false -> isResizing s = false ->
  let s1 := handleCanvasClick now x y s in
  let s2 := handleCanvasClick now' x y s1 in
  selectedNote s2 = Some (clickedCellNote now x y s)
  /\ List.length (notes s2) = S (List.length (notes s))
  /\ numberOfColumns s2 = numberOfColumns s1.
Proof.
  intros Hfind Hdrag Hres s1 s2.
  destruct (click_creates now x y s Hfind Hdrag Hres) as [Hn1 [Hsel1 Hc1]].
  assert (Hfind1 : find (covers (cellIndex y) (cellIndex x)) (notes s1)
                   = Some (clickedCellNote now x y s)).
  { subst s1. rewrite Hn1.
    assert (Hold : find (covers (cellIndex y) (cellIndex x))
                        (map (with_selected false) (notes s)) = None)
      by (rewrite find_map_same by reflexivity; rewrite Hfind; reflexivity).
    assert (Hnew : covers (cellIndex y) (cellIndex x) (clickedCellNote now x y s) = true)
      by (apply covers_spec; cbn [clickedCellNote rowIndex colIndex duration]; lia).
    revert Hold. generalize (map (with_selected false) (notes s)).
    induction l as [| n l IH]; cbn [find app].
    - intros _. rewrite Hnew. reflexivity.
    - destruct (covers (cellIndex y) (cellIndex x) n); [discriminate | exact IH]. }
  destruct (click_selects now' x y s1 _ Hfind1) as [Hn2 [Hsel2 Hc2]].
  subst s2. rewrite Hn2, Hsel2, Hc2, length_map. subst s1.
  rewrite Hn1, length_app, length_map. cbn. split; [reflexivity |]. split; [lia | reflexivity].
Qed.

Lemma click_twice_creates_once_witness :
  List.length (notes (handleCanvasClick 1 80 10 (handleCanvasClick 0 80 10 initialState)))
  = 1%nat.
Proof.
  destruct (click_twice_creates_once 0 1 80 10 initialState eq_refl eq_refl eq_refl)
    as [_ [Hlen _]].
  exact Hlen.
Defined.

(** X21.  A click on the canvas that creates a note never leaves it in the
    last column: the pointer is left of the canvas's right edge, so the note
    is at most in the last column, and in that case the grid has grown by
    50; there is always at least one free column to its right. *)
Theorem click_leaves_room (now : Z) (x y : Q) (s : State) :
  find (covers (cellIndex y) (cellIndex x)) (notes s) = None ->
  isDragging s = false -> isResizing s = false ->
  (x < inject_Z (numberOfColumns s * CELL_SIZE))%Q ->
  let s' := handleCanvasClick now x y s in
  exists n, notes s' = map (with_selected false) (notes s) ++ [n]
            /\ colIndex n + duration n < numberOfColumns s'.
Proof.
  intros Hfind Hdrag Hres Hx s'.
  destruct (click_creates now x y s Hfind Hdrag Hres) as [Hn [_ Hc]].
  exists (clickedCellNote now x y s). split; [exact Hn |].
  subst s'. rewrite Hc. cbn [clickedCellNote colIndex duration].
  apply cellIndex_lt in Hx.
  destruct (cellIndex x >=? numberOfColumns s - 1) eqn:E; lia.
Qed.

Lemma click_leaves_room_witness :
  exists n, notes (handleCanvasClick 0 1599 10 initialState)
            = map (with_selected false) (notes initialState) ++ [n]
            /\ colIndex n + duration n < 114.
Proof.
  exact (click_leaves_room 0 1599 10 initialState eq_refl eq_refl eq_refl eq_refl).
Defined.

(** ** Notes stay on the grid *)










(** ** The grid and the stacking of notes *)

Lemma insideRect_covers (px py : Q) (n : Note) :
  insideRect px py (noteRect n) <-> covers (cellIndex py) (cellIndex px) n = true.
Proof.
  rewrite covers_spec. unfold insideRect, noteRect, NOTE_WIDTH, NOTE_HEIGHT, CELL_SIZE.
  replace (colIndex n * 25 + 25 * duration n) with ((colIndex n + duration n) * 25) by lia.
  replace (rowIndex n * 25 + 25) with ((rowIndex n + 1) * 25) by lia.
  rewrite <- !cellIndex_le, <- !cellIndex_lt. lia.
Qed.

(** X23.  The cell a pointer event targets is the grid square drawn under
    the pointer: for a pointer on a canvas of [rows] by [cols] cells,
    [drawGrid] outlines the square of the cell
    [(floor (x / 25), floor (y / 25))] and the pointer is on it. *)
Theorem grid_square_under_pointer (canvasWidth canvasHeight : Z) (rows cols : nat) (px py : Q) :
  (0 <= px /\ px < inject_Z (Z.of_nat cols * CELL_SIZE))%Q ->
  (0 <= py /\ py < inject_Z (Z.of_nat rows * CELL_SIZE))%Q ->
  In (PathRect (cellIndex px * CELL_SIZE) (cellIndex py * CELL_SIZE) CELL_SIZE CELL_SIZE)
     (drawGrid canvasWidth canvasHeight rows cols)
  /\ insideRect px py (cellIndex px * CELL_SIZE, cellIndex py * CELL_SIZE, CELL_SIZE, CELL_SIZE).
Proof.
  unfold CELL_SIZE. intros [Hx0 Hx1] [Hy0 Hy1].
  pose proof (proj2 (cellIndex_lt _ _) Hx1) as Hc1.
  pose proof (proj2 (cellIndex_lt _ _) Hy1) as Hr1.
  pose proof (proj2 (cellIndex_le 0 _) Hx0) as Hc0.
  pose proof (proj2 (cellIndex_le 0 _) Hy0) as Hr0.
  split.
  - unfold drawGrid, CELL_SIZE. apply in_or_app. right. apply in_or_app. left.
    apply in_flat_map. exists (Z.to_nat (cellIndex py)). split; [apply in_seq; lia |].
    apply in_map_iff. exists (Z.to_nat (cellIndex px)). split; [| apply in_seq; lia].
    rewrite !Z2Nat.id by lia. reflexivity.
  - unfold insideRect.
    replace (cellIndex px * 25 + 25) with ((cellIndex px + 1) * 25) by lia.
    replace (cellIndex py * 25 + 25) with ((cellIndex py + 1) * 25) by lia.
    rewrite <- !cellIndex_le, <- !cellIndex_lt. lia.
Qed.

Lemma grid_square_under_pointer_witness :
  In (PathRect 75 0 25 25) (drawGrid 1600 2100 84 64).
Proof.
  destruct (grid_square_under_pointer 1600 2100 84 64 80 10) as [Hin _].
  - split; reflexivity || discriminate.
  - split; reflexivity || discriminate.
  - exact Hin.
Defined.

(** X24.  Where notes overlap, the click and the picture disagree: a click
    on a cell that two notes hold selects the one that comes first in the
    store, while [drawAllNotes] paints the notes in store order, so that the
    later note is the one painted on top at the pointer. *)
Theorem click_picks_note_underneath
        (now : Z) (x y : Q) (s : State) (before between after : list Note) (a b : Note) :
  notes s = before ++ a :: between ++ b :: after ->
  (forall n, In n before -> covers (cellIndex y) (cellIndex x) n = false) ->
  covers (cellIndex y) (cellIndex x) a = true ->
  covers (cellIndex y) (cellIndex x) b = true ->
  selectedNote (handleCanvasClick now x y s) = Some a
  /\ insideRect x y (noteRect a) /\ insideRect x y (noteRect b)
  /\ exists first rest,
       drawAllNotes s
       = first ++ drawNote a ++ flat_map drawNote between ++ drawNote b ++ rest.
Proof.
  intros Hnotes Hbefore Ha Hb.
  assert (Hfind : find (covers (cellIndex y) (cellIndex x)) (notes s) = Some a).
  { rewrite Hnotes. clear Hnotes. induction before as [| n before IH]; cbn [app find].
    - rewrite Ha. reflexivity.
    - rewrite (Hbefore n (or_introl eq_refl)). apply IH.
      intros m Hm. apply Hbefore. right. exact Hm. }
  split; [exact (proj1 (proj2 (click_selects now x y s a Hfind))) |].
  split; [apply insideRect_covers, Ha |]. split; [apply insideRect_covers, Hb |].
  unfold drawAllNotes. rewrite Hnotes.
  eexists (_ :: flat_map drawNote before), (flat_map drawNote after).
  cbn [app]. f_equal.
  rewrite flat_map_app. cbn [flat_map]. rewrite flat_map_app. cbn [flat_map].
  rewrite <- ?app_assoc. reflexivity.
Qed.

(** A one-column note, then a random note laid over it; the click takes the
    first. *)
Lemma click_picks_note_underneath_witness :
  let s := addRandomNote 1 0 (5 # 100) (9 # 10) (handleCanvasClick 0 80 10 initialState) in
  map (fun n => (colIndex n, duration n, rowIndex n)) (notes s) = [(3, 1, 0); (3, 4, 0)]
  /\ option_map id (selectedNote (handleCanvasClick 2 80 10 s)) = Some "note-0"%string.
Proof.
  intros s. split; [reflexivity |].
  destruct (click_picks_note_underneath 2 80 10 s [] [] [] (clickedCellNote 0 80 10 initialState)
              (mkNote "note-1" (Some "C2"%string) 3 4 0 3 false))
    as [Hsel _].
  - reflexivity.
  - intros n [].
  - reflexivity.
  - reflexivity.
  - rewrite Hsel. reflexivity.
Defined.

(** ** The staff view: what is drawn *)

Lemma Qle_bool_false (a b : Q) : Qle_bool a b = false -> (b < a)%Q.
Proof.
  intros H. apply Qnot_le_lt. intros Hle. apply Qle_bool_iff in Hle. congruence.
Qed.

Lemma getDuration_cases (q : Q) :
  ((4 <= q)%Q -> getDuration q = "w"%string)
  /\ ((2 <= q /\ q < 4)%Q -> getDuration q = "h"%string)
  /\ ((1 <= q /\ q < 2)%Q -> getDuration q = "q"%string)
  /\ ((q < 1)%Q -> getDuration q = "8"%string).
Proof.
  unfold getDuration.
  destruct (Qle_bool 4 q) eqn:E4; [apply Qle_bool_iff in E4 | apply Qle_bool_false in E4];
    (destruct (Qle_bool 2 q) eqn:E2; [apply Qle_bool_iff in E2 | apply Qle_bool_false in E2]);
    (destruct (Qle_bool 1 q) eqn:E1; [apply Qle_bool_iff in E1 | apply Qle_bool_false in E1]);
    repeat split; intros; try reflexivity; lra.
Qed.

Lemma getDuration_beats (q : Q) :
  (symbolBeats (getDuration q) <= 4)%Q /\ (0 < symbolBeats (getDuration q))%Q.
Proof.
  unfold getDuration.
  destruct (Qle_bool 4 q); [split; reflexivity || discriminate |].
  destruct (Qle_bool 2 q); [split; reflexivity || discriminate |].
  destruct (Qle_bool 1 q); split; reflexivity || discriminate.
Qed.

(** Shape of what the loop pushes for a positive duration: whole notes, then
    one note for what remains. *)
Lemma splitLoop_shape (baseNote : string) (remainingDuration : Q) (result : list Piece) :
  (0 < remainingDuration)%Q ->
  exists wholes last rem,
    splitLoop baseNote remainingDuration result = result ++ wholes ++ [last]
    /\ Forall (fun p => vfDuration (pushed p) = "w"%string) wholes
    /\ (rem == remainingDuration - 4 * inject_Z (Z.of_nat (List.length wholes)))%Q
    /\ (0 < rem /\ rem <= 4)%Q
    /\ vfDuration (pushed last) = getDuration rem
    /\ (forall i p, nth_error (wholes ++ [last]) i = Some p ->
          tied (pushed p) = (0 <? List.length result + i)%nat
          /\ keys (pushed p) = [baseNote]).
Proof.
  funelim (splitLoop baseNote remainingDuration result); intros Hr; [| lra].
  assert (Hm_pos : (0 < Qmin remainingDuration 4)%Q)
    by (apply Q.min_glb_lt; [exact Hpos | reflexivity]).
  assert (Hm_le4 : (Qmin remainingDuration 4 <= 4)%Q) by apply Q.le_min_r.
  assert (Hm_ler : (Qmin remainingDuration 4 <= remainingDuration)%Q) by apply Q.le_min_l.
  destruct (Qlt_le_dec 0 (remainingDuration - Qmin remainingDuration 4)) as [Hmore | Hdone].
  - destruct (H Hmore) as [wholes [last [rem [Hcall [Hw [Hrem [Hbound [Hlast Hnotes]]]]]]]].
    assert (Hmin : (Qmin remainingDuration 4 == 4)%Q).
    { destruct (Qlt_le_dec 4 remainingDuration) as [Hbig | Hsmall].
      - apply Q.min_r, Qlt_le_weak, Hbig.
      - pose proof (Q.min_l _ _ Hsmall) as Hl. lra. }
    eexists (_ :: wholes), last, rem.
    split; [rewrite Hcall, <- app_assoc; reflexivity |].
    split.
    { constructor; [| exact Hw]. cbn. unfold getDuration.
      replace (Qle_bool 4 (Qmin remainingDuration 4)) with true; [reflexivity |].
      symmetry. apply Qle_bool_iff. lra. }
    split.
    { cbn [List.length]. rewrite Nat2Z.inj_succ. unfold Z.succ. rewrite inject_Z_plus.
      change (inject_Z 1) with 1%Q.
      generalize dependent (inject_Z (Z.of_nat (List.length wholes))). intros; lra. }
    split; [exact Hbound |]. split; [exact Hlast |].
    intros [| i] p Hp; cbn in Hp.
    + inversion Hp; subst p. cbn. rewrite Nat.add_0_r. auto.
    + destruct (Hnotes i p Hp) as [Htied Hkeys]. split; [| exact Hkeys].
      rewrite Htied, length_app. cbn.
      destruct (List.length result + 1 + i)%nat eqn:E1; [lia |].
      destruct (List.length result + S i)%nat eqn:E2; [lia | reflexivity].
  - destruct (splitLoop_spec baseNote (remainingDuration - Qmin remainingDuration 4)
                (result ++ [mkPiece (Qmin remainingDuration 4)
                              (mkStaveNote "treble" [baseNote]
                                 (getDuration (Qmin remainingDuration 4))
                                 (0 <? List.length result)%nat)]))
      as [rest [Hcall [_ [_ [Hnil _]]]]].
    rewrite (Hnil Hdone), app_nil_r in Hcall.
    eexists [], _, (Qmin remainingDuration 4).
    split; [rewrite Hcall; reflexivity |].
    split; [constructor |].
    split; [cbn [List.length Z.of_nat]; change (inject_Z 0) with 0%Q; lra |].
    split; [split; assumption |]. split; [reflexivity |].
    intros [| [| i]] p Hp; cbn in Hp; try discriminate.
    inversion Hp; subst p. cbn. rewrite Nat.add_0_r. auto.
Qed.

Lemma wholes_beats (wholes : list Piece) :
  Forall (fun p => vfDuration (pushed p) = "w"%string) wholes ->
  (Qsum (map (fun n => symbolBeats (vfDuration n)) (map pushed wholes))
   == 4 * inject_Z (Z.of_nat (List.length wholes)))%Q.
Proof.
  induction 1 as [| p wholes Hp _ IH]; [reflexivity |].
  cbn [map Qsum fold_right List.length]. rewrite Hp.
  change (fold_right Qplus 0%Q (map (fun n => symbolBeats (vfDuration n)) (map pushed wholes)))
    with (Qsum (map (fun n => symbolBeats (vfDuration n)) (map pushed wholes))).
  rewrite IH, Nat2Z.inj_succ. unfold Z.succ. rewrite inject_Z_plus.
  change (symbolBeats "w") with 4%Q. change (inject_Z 1) with 1%Q. ring.
Qed.

(** C8, as the code has it.  For a positive duration [d] in beats,
    [splitNote] returns [ceil (d / 4)] notes, at least one and exactly one
    when [d <= 4]; the first carries no tie and every later one does; each
    is drawn with a symbol of at most 4 beats.  Every note but the last is a
    whole note; the last is drawn for the remainder [r = d - 4 * (count - 1)],
    which lies in (0, 4]: a whole note when [r >= 4], a half note when
    [2 <= r < 4], a quarter when [1 <= r < 2], an eighth when [r < 1].  The
    beats drawn add up to [d - r] plus the beats of the last symbol. *)
Theorem splitNote_pieces (baseNote : string) (d : Q) :
  (0 < d)%Q ->
  let staff := splitNote baseNote d in
  let count := List.length staff in
  let r := (d - 4 * inject_Z (Z.of_nat (count - 1)))%Q in
  count = Z.to_nat (Qceiling (d / 4)) /\ (1 <= count)%nat
  /\ ((d <= 4)%Q -> count = 1%nat)
  /\ (0 < r /\ r <= 4)%Q
  /\ forall i n, nth_error staff i = Some n ->
       tied n = (0 <? i)%nat /\ keys n = [baseNote]
       /\ (symbolBeats (vfDuration n) <= 4)%Q
       /\ ((S i < count)%nat -> vfDuration n = "w"%string)
       /\ (S i = count ->
           ((4 <= r)%Q -> vfDuration n = "w"%string)
           /\ ((2 <= r /\ r < 4)%Q -> vfDuration n = "h"%string)
           /\ ((1 <= r /\ r < 2)%Q -> vfDuration n = "q"%string)
           /\ ((r < 1)%Q -> vfDuration n = "8"%string)
           /\ (Qsum (map (fun m => symbolBeats (vfDuration m)) staff)
               == d - r + symbolBeats (vfDuration n))%Q).
Proof.
  intros Hpos staff count r.
  destruct (splitLoop_shape baseNote d [] Hpos)
    as [wholes [last [rem [Hcall [Hw [Hrem [[Hrem0 Hrem4] [Hlast Hnotes]]]]]]]].
  cbn [app List.length Nat.add] in Hcall, Hnotes.
  assert (Hstaff : staff = map pushed wholes ++ [pushed last])
    by (subst staff; unfold splitNote; rewrite Hcall, map_app; reflexivity).
  assert (Hcount : count = S (List.length wholes))
    by (subst count; rewrite Hstaff, length_app, length_map; cbn; lia).
  assert (Hr : (rem == r)%Q).
  { subst r. rewrite Hcount. replace (S (List.length wholes) - 1)%nat
      with (List.length wholes) by lia. exact Hrem. }
  split; [subst count staff; apply splitNote_length |].
  split; [lia |]. split.
  { intros Hle. rewrite Hcount. destruct wholes as [| w wholes]; [reflexivity |].
    exfalso. cbn [List.length] in Hrem. rewrite Nat2Z.inj_succ in Hrem.
    unfold Z.succ in Hrem. rewrite inject_Z_plus in Hrem.
    change (inject_Z 1) with 1%Q in Hrem.
    assert (Hn : (0 <= inject_Z (Z.of_nat (List.length wholes)))%Q)
      by (change 0%Q with (inject_Z 0); rewrite <- Zle_Qle; lia).
    generalize dependent (inject_Z (Z.of_nat (List.length wholes))). intros; lra. }
  split; [split; lra |].
  intros i n Hn. rewrite Hstaff in Hn.
  assert (Hp : exists p, nth_error (wholes ++ [last]) i = Some p /\ n = pushed p).
  { change [pushed last] with (map pushed [last]) in Hn. rewrite <- map_app in Hn.
    rewrite nth_error_map in Hn.
    destruct (nth_error (wholes ++ [last]) i) as [p |]; [| discriminate].
    inversion Hn. eauto. }
  destruct Hp as [p [Hp ->]]. destruct (Hnotes i p Hp) as [Htied Hkeys].
  split; [exact Htied |]. split; [exact Hkeys |].
  destruct (Nat.lt_ge_cases i (List.length wholes)) as [Hi | Hi].
  - rewrite nth_error_app1 in Hp by exact Hi.
    rewrite Forall_forall in Hw. pose proof (Hw p (nth_error_In _ _ Hp)) as Hwp.
    rewrite Hwp. split; [discriminate |]. split; [reflexivity |]. intros Heq. lia.
  - assert (Hlen : (i < List.length (wholes ++ [last]))%nat)
      by (apply nth_error_Some; congruence).
    rewrite length_app in Hlen. cbn in Hlen.
    assert (Hi' : i = List.length wholes) by lia. subst i.
    rewrite nth_error_app2, Nat.sub_diag in Hp by lia. cbn in Hp.
    inversion Hp; subst p. rewrite Hlast.
    split; [apply getDuration_beats |]. split; [intros Hlt; lia |]. intros _.
    destruct (getDuration_cases rem) as [Hc4 [Hc2 [Hc1 Hc0]]].
    split; [intros; apply Hc4; lra |]. split; [intros; apply Hc2; lra |].
    split; [intros; apply Hc1; lra |]. split; [intros; apply Hc0; lra |].
    rewrite Hstaff, map_app. unfold Qsum. rewrite fold_right_app. cbn [map fold_right].
    rewrite Hlast.
    assert (Hshift : forall (l : list Q) (z : Q),
               (fold_right Qplus z l == fold_right Qplus 0%Q l + z)%Q).
    { induction l as [| a l IHl]; intros z; cbn [fold_right]; [ring |].
      rewrite IHl. ring. }
    rewrite Hshift.
    pose proof (wholes_beats wholes Hw) as Hsum. unfold Qsum in Hsum. rewrite Hsum.
    lra.
Qed.

(** 4.5 beats (18 columns): a whole note and a tied eighth. *)
Lemma splitNote_pieces_witness :
  List.length (splitNote "c/4" (inject_Z 18 / 4)) = 2%nat
  /\ forall i n, nth_error (splitNote "c/4" (inject_Z 18 / 4)) i = Some n ->
       tied n = (0 <? i)%nat /\ (symbolBeats (vfDuration n) <= 4)%Q.
Proof.
  destruct (splitNote_pieces "c/4" (inject_Z 18 / 4) eq_refl) as [Hcount [_ [_ [_ Hall]]]].
  split; [rewrite Hcount; reflexivity |].
  intros i n Hn. destruct (Hall i n Hn) as [Htied [_ [Hbeats _]]]. auto.
Defined.

(** C8 as stated fails on what is drawn: a note of 3 beats (12 columns) is
    rendered as one half note, 2 beats; a note of 7 beats as a whole and a
    half note, 6 beats. *)
Lemma staff_durations_counterexample :
  map vfDuration (splitNote "c/4" (inject_Z 12 / 4)) = ["h"%string]
  /\ ~ (Qsum (map (fun n => symbolBeats (vfDuration n)) (splitNote "c/4" (inject_Z 12 / 4)))
        == inject_Z 12 / 4)%Q
  /\ map vfDuration (splitNote "c/4" (inject_Z 28 / 4)) = ["w"; "h"]%string
  /\ ~ (Qsum (map (fun n => symbolBeats (vfDuration n)) (splitNote "c/4" (inject_Z 28 / 4)))
        == inject_Z 28 / 4)%Q.
Proof.
  split; [reflexivity |]. split; [vm_compute; discriminate |].
  split; [reflexivity |]. vm_compute; discriminate.
Qed.
